(** * ImplibGenerator: the import-library builder and the PE export dumpers

    A shallow embedding of
    - [dll2def/dll2def.cpp] and [dumpsyms/dumpsyms.cpp] (the two PE export
      dumpers: [do_RVA_2_FileOffset], [cprintf], [parse_pe]),
    - [LibGenHelper/LibGenHelperImpl.cpp] ([CImportLibraryBuilder]),
    - [MakeImpLib/main.cpp] (the JSON driven front end),
    together with the properties the specification states about them. *)

From Stdlib Require Import ZArith Lia Ascii String.
From stdpp Require Import base list strings gmap.

Local Open Scope Z_scope.

(** ** Machine integers and characters *)

(** [uint32_t] arithmetic wraps modulo 2^32. *)
Definition u32 (z : Z) : Z := z mod 2 ^ 32.

(** A C [char] is an [ascii]; a [char] buffer is a list of them. *)
Definition NUL : ascii := "000"%char.
Definition LF : ascii := "010"%char.

Definition code (c : ascii) : Z := Z.of_N (N_of_ascii c).

(** Conversion of an [int] to [char]: the low eight bits. *)
Definition char_of_int (z : Z) : ascii := ascii_of_N (Z.to_N (z mod 256)).

Definition lit (s : string) : list ascii := list_ascii_of_string s.

(** A store through a [char*]: [buf[idx] = c].  A store outside the buffer is
    undefined behaviour in C; the model leaves the buffer as it is. *)
Definition poke (buf : list ascii) (idx : Z) (c : ascii) : list ascii :=
  if idx <? 0 then buf else <[Z.to_nat idx := c]> buf.

(** ** [do_RVA_2_FileOffset] (dll2def.cpp:52-73, dumpsyms.cpp:70-91)

    The two files define the structure and the function with the same text. *)

Record RVA_2_FileOffset := {
  VirtualAddress : Z;
  VirtualSize : Z;
  FileOffset : Z
}.

(** The test of the [if] inside the loop; [VirtualAddress + VirtualSize] is a
    [uint32_t] sum. *)
Definition rva_in_node (node : RVA_2_FileOffset) (RVA : Z) : bool :=
  (VirtualAddress node <=? RVA) &&
  (RVA <=? u32 (VirtualAddress node + VirtualSize node)).

(** The linked list [RVA_2_FileOffset_node] is a list of nodes. *)
Fixpoint do_RVA_2_FileOffset (sections : list RVA_2_FileOffset) (RVA : Z) : Z :=
  match sections with
  | [] => 0
  | node :: next_node =>
      if rva_in_node node RVA
      then u32 (RVA - VirtualAddress node + FileOffset node)
      else do_RVA_2_FileOffset next_node RVA
  end.

(** ** [cprintf] (dll2def.cpp:75-98) *)

(** The inner loop [while (len-- > 0) { *(outp - ++x) = '0' + n % 10; n /= 10; }]
    run for [k] iterations; [%] and [/] on [int] truncate towards zero. *)
Fixpoint cprintf_digits (k : nat) (buf : list ascii) (outp x n : Z)
  : list ascii * Z :=
  match k with
  | O => (buf, n)
  | S k' =>
      let x' := x + 1 in
      let buf' := poke buf (outp - x') (char_of_int (48 + Z.rem n 10)) in
      cprintf_digits k' buf' outp x' (Z.quot n 10)
  end.

(** The value of [len] when [while (len-- > 0)] is left. *)
Definition len_after_loop (len : Z) : Z := if 0 <? len then -1 else len - 1.

(** The outer loop [while ((c = *mask++))].  [outp] is the offset of the output
    pointer from [dest]; the mask ends at its first NUL or at the end of the
    list. *)
Fixpoint cprintf_loop (mask : list ascii) (buf : list ascii) (outp len n : Z)
  : list ascii * Z :=
  match mask with
  | [] => (buf, outp)
  | c :: mask' =>
      if Ascii.eqb c NUL then (buf, outp)
      else if Ascii.eqb c "%"%char then
        let outp' := outp + len in
        let '(buf', n') := cprintf_digits (Z.to_nat len) buf outp' 0 n in
        cprintf_loop mask' buf' outp' (len_after_loop len) n'
      else cprintf_loop mask' (poke buf outp c) (outp + 1) len n
  end.

Definition cprintf_len (n : Z) : Z :=
  if n <=? 9 then 1
  else if n <=? 99 then 2
  else if n <=? 999 then 3
  else if n <=? 9999 then 4
  else if n <=? 99999 then 5
  else 6.

(** [cprintf dest mask n] returns the buffer after the call and the returned
    [int]. *)
Definition cprintf (dest : list ascii) (mask : list ascii) (n : Z)
  : list ascii * Z :=
  cprintf_loop mask dest 0 (cprintf_len n) n.

(** ** Decimal notation

    [decimal n] is the text [operator<<] of a stream writes for an unsigned
    integer: the digits of [n] in base ten, most significant first, ["0"] for
    zero.  The fuel bounds the number of digits. *)

Definition digit_char (d : Z) : ascii := char_of_int (48 + d).

Fixpoint decimal_aux (fuel : nat) (n : Z) (acc : list ascii) : list ascii :=
  match fuel with
  | O => acc
  | S fuel' =>
      let acc' := digit_char (n mod 10) :: acc in
      if n / 10 =? 0 then acc' else decimal_aux fuel' (n / 10) acc'
  end.

Definition decimal (n : Z) : list ascii :=
  decimal_aux (S (Z.to_nat (Z.log2 n))) n [].

(** The number a list of decimal digits denotes, and the digit test. *)
Definition digits_value (ds : list ascii) : Z :=
  fold_left (fun v c => 10 * v + (code c - 48)) ds 0.

Definition is_digit (c : ascii) : Prop := 48 <= code c <= 57.

(** [k] digits of [n], most significant first, zero padded. *)
Fixpoint fixed_digits (k : nat) (n : Z) : list ascii :=
  match k with
  | O => []
  | S k' => fixed_digits k' (n / 10) ++ [digit_char (n mod 10)]
  end.

(** ** Little-endian scalars in a byte buffer *)

Definition le_decode (bs : list ascii) : Z :=
  foldr (fun c acc => code c + 256 * acc) 0 bs.

Fixpoint le_encode (k : nat) (z : Z) : list ascii :=
  match k with
  | O => []
  | S k' => char_of_int z :: le_encode k' (z / 256)
  end.

(** [*reinterpret_cast<uintN_t *>(buf + off)] *)
Definition bytes_at (buf : list ascii) (off : Z) (k : nat) : list ascii :=
  take k (drop (Z.to_nat off) buf).
Definition u8_at (buf : list ascii) (off : Z) : Z := le_decode (bytes_at buf off 1).
Definition u16_at (buf : list ascii) (off : Z) : Z := le_decode (bytes_at buf off 2).
Definition u32_at (buf : list ascii) (off : Z) : Z := le_decode (bytes_at buf off 4).

(** Bytes copied to the start of a buffer: the rest of the buffer stays. *)
Definition store (buf data : list ascii) : list ascii :=
  data ++ drop (length data) buf.

(** [strlen]: the characters before the first NUL. *)
Fixpoint strlen (buf : list ascii) : Z :=
  match buf with
  | [] => 0
  | c :: buf' => if Ascii.eqb c NUL then 0 else 1 + strlen buf'
  end.

(** Conversion of a [uint32_t] value to [int]. *)
Definition int_of_u32 (z : Z) : Z := if z <? 2 ^ 31 then z else z - 2 ^ 32.

(** ** [std::ifstream] on a binary file

    The stream is open on [is_bytes].  A [read] that finds fewer characters
    than asked sets [eofbit] and [failbit] together, so one flag stands for
    both; while it is set [read] extracts nothing and [seekg] does nothing. *)

Record ifstream := {
  is_bytes : list ascii;
  is_pos : Z;
  is_fail : bool;
  is_gcount : Z
}.

Definition ifstream_open (bytes : list ascii) : ifstream :=
  {| is_bytes := bytes; is_pos := 0; is_fail := false; is_gcount := 0 |}.

Definition ifstream_read (n : Z) (s : ifstream) : list ascii * ifstream :=
  if is_fail s then
    ([], {| is_bytes := is_bytes s; is_pos := is_pos s; is_fail := true;
            is_gcount := 0 |})
  else
    let data := take (Z.to_nat n) (drop (Z.to_nat (is_pos s)) (is_bytes s)) in
    let k := Z.of_nat (length data) in
    (data, {| is_bytes := is_bytes s; is_pos := is_pos s + k;
              is_fail := k <? n; is_gcount := k |}).

Definition ifstream_seekg (pos : Z) (s : ifstream) : ifstream :=
  if is_fail s then s
  else {| is_bytes := is_bytes s; is_pos := pos; is_fail := false;
          is_gcount := is_gcount s |}.

(** ** The state of [parse_pe] and its early returns *)

Inductive ERR_CODES :=
| ERR_OK
| ERR_FILE_NOT_FOUND
| ERR_OUTPUT
| ERR_BAD_FORMAT
| ERR_NO_EXPORT
| ERR_NO_FREE_MEM
| ERR_BAD_FILENAME.

Record PEState := { hFile : ifstream; hOut : list ascii }.

(** A statement either falls through with a value or executes [return]. *)
Inductive Step (A : Type) :=
| Return (rc : ERR_CODES) (st : PEState)
| Next (a : A) (st : PEState).
Arguments Return {A} rc st.
Arguments Next {A} a st.

Definition PE (A : Type) : Type := PEState -> Step A.

Definition pe_ret {A} (a : A) : PE A := fun st => Next a st.
Definition pe_bind {A B} (m : PE A) (k : A -> PE B) : PE B :=
  fun st => match m st with
            | Return rc st' => Return rc st'
            | Next a st' => k a st'
            end.

Global Instance PE_ret : MRet PE := @pe_ret.
Global Instance PE_bind : MBind PE := fun A B k m => pe_bind m k.

(** [if (cond) return rc;] *)
Definition return_if (cond : bool) (rc : ERR_CODES) : PE unit :=
  fun st => if cond then Return rc st else Next tt st.

(** [hFile.read(buf, n)] followed by [hFile.gcount()]: the buffer after the
    read and the count. *)
Definition read_into (buf : list ascii) (n : Z) : PE (list ascii * Z) :=
  fun st =>
    let '(data, s) := ifstream_read n (hFile st) in
    Next (store buf data, is_gcount s) {| hFile := s; hOut := hOut st |}.

(** [hFile.read(reinterpret_cast<char *>(&v), k)] for a scalar [v] of [k]
    bytes: the bytes the read does not reach keep their value. *)
Definition read_scalar (k : nat) (v : Z) : PE Z :=
  fun st =>
    let '(data, s) := ifstream_read (Z.of_nat k) (hFile st) in
    Next (le_decode (store (le_encode k v) data))
         {| hFile := s; hOut := hOut st |}.

Definition seekg_beg (pos : Z) : PE unit :=
  fun st => Next tt {| hFile := ifstream_seekg pos (hFile st); hOut := hOut st |}.

Definition seekg_cur (off : Z) : PE unit :=
  fun st => Next tt {| hFile := ifstream_seekg (is_pos (hFile st) + off) (hFile st);
                       hOut := hOut st |}.

(** [hOut << text] and [hOut.write(text, n)]. *)
Definition put (text : list ascii) : PE unit :=
  fun st => Next tt {| hFile := hFile st; hOut := hOut st ++ text |}.

(** ** What [parse_pe] keeps between its parts

    The two files declare the same locals.  [buf] is only read at offsets
    below 0x40, which the first read has filled, so its 1024 bytes start as
    zeros in the model.  [new] does not return a null pointer, so the return
    of [ERR_NO_FREE_MEM] is never taken.  The [next_node] of the last node is
    never assigned; the model takes the list to end there. *)

(** The values computed before the loop over the Name Pointer RVA Table. *)
Record ExportTables := {
  et_sections : list RVA_2_FileOffset;
  et_ordinal_base : Z;
  et_num_names : Z;
  et_psymbols_array : Z;
  et_ordinals_array : Z
}.

(** The variables that loop carries from one round to the next. *)
Record Cursor := {
  psymbols_array : Z;
  ordinals_array : Z;
  i : Z;
  ordinal : Z;
  pub_name : list ascii
}.

(** [i] and [ordinal] are declared without an initialiser and are filled by
    reads whose count is not tested: what they hold before the first read
    reaches them is a parameter of the model. *)
Record Indeterminate := { junk_i : Z; junk_ordinal : Z }.

Definition first_cursor (t : ExportTables) (junk : Indeterminate) : Cursor :=
  {| psymbols_array := et_psymbols_array t;
     ordinals_array := et_ordinals_array t;
     i := junk_i junk;
     ordinal := junk_ordinal junk;
     pub_name := replicate 80 NUL |}.

Definition set_pub_name (c : Cursor) (pub_name : list ascii) : Cursor :=
  {| psymbols_array := psymbols_array c;
     ordinals_array := ordinals_array c;
     i := i c;
     ordinal := ordinal c;
     pub_name := pub_name |}.

Definition MOD_NO : Z := 0.

(** The value of [parse_pe]: the returned [int] and what was written to
    [hOut]. *)
Definition finish (r : Step unit) : ERR_CODES * list ascii :=
  match r with
  | Return rc st => (rc, hOut st)
  | Next _ st => (ERR_OK, hOut st)
  end.

(** ** [parse_pe] of dll2def (dll2def.cpp:100-289), called with
    [compact = true]: the block under [if (!compact)] is not entered. *)
Module Dll2def.

(** [while (num_sections--)] over the section headers (dll2def.cpp:168-183). *)
Fixpoint load_sections (num_sections : nat) (buf : list ascii)
    (sections : list RVA_2_FileOffset)
  : PE (list ascii * list RVA_2_FileOffset) :=
  match num_sections with
  | O => mret (buf, sections)
  | S num_sections' =>
      '(buf, gcount) ← read_into buf 0x28;
      return_if (negb (gcount =? 0x28)) ERR_BAD_FORMAT;;
      load_sections num_sections' buf
        (sections ++ [ {| VirtualAddress := u32_at buf 0x0C;
                          VirtualSize := u32_at buf 0x08;
                          FileOffset := u32_at buf 0x14 |} ])
  end.

(** From the read of the MSDOS header to the test that returns
    [ERR_NO_EXPORT] (dll2def.cpp:119-211). *)
Definition pe_headers : PE ExportTables :=
  let buf := replicate 1024 NUL in
  (* the MSDOS header *)
  '(buf, gcount) ← read_into buf 0x40;
  return_if (negb (gcount =? 0x40)) ERR_BAD_FORMAT;;
  let aux := u32_at buf 0x3C in
  seekg_beg aux;;
  let file_pos := u32 (aux + 0x1A) in
  (* the COFF file header *)
  '(buf, gcount) ← read_into buf 0x1A;
  return_if (negb (gcount =? 0x1A) || negb (u32_at buf 0 =? 0x4550))
            ERR_BAD_FORMAT;;
  let x64 := u16_at buf 4 =? 0x8664 in
  let num_sections := u8_at buf 6 in
  let size_of_optional_header := u16_at buf 0x14 in
  is_PE32plus ←
    ((if 2 <? size_of_optional_header then
       let aux := u16_at buf 0x18 in
       return_if (negb (aux =? 0x10B) && negb (aux =? 0x20B)) ERR_BAD_FORMAT;;
       mret (aux =? 0x20B)
     else mret false) : PE bool);
  (* the DEF header *)
  put (lit "include 'implib" ++ (if x64 then lit "64" else lit "")
         ++ lit ".inc'" ++ [LF; LF]);;
  let aux := if (is_PE32plus : bool) then 0x78 else 0x68 in
  return_if (size_of_optional_header <? aux) ERR_NO_EXPORT;;
  (* Optional Header -> Data Directories -> Export Table *)
  let aux := u32 (aux - 0xA) in
  let file_pos := u32 (file_pos + aux) in
  seekg_cur aux;;
  let file_pos := u32 (file_pos - aux + size_of_optional_header - 2) in
  '(export_dir, gcount) ← read_into [] 8;
  return_if (negb (gcount =? 8)) ERR_BAD_FORMAT;;
  let export_dir_VirtualAddress := u32_at export_dir 0 in
  let export_dir_VirtualSize := u32_at export_dir 4 in
  return_if ((export_dir_VirtualAddress =? 0) || (export_dir_VirtualSize =? 0))
            ERR_NO_EXPORT;;
  (* the Section Headers Table *)
  seekg_beg file_pos;;
  '(buf, sections) ← load_sections (Z.to_nat num_sections) buf [];
  (* the Export directory *)
  let file_pos := do_RVA_2_FileOffset sections export_dir_VirtualAddress in
  return_if (file_pos =? 0) ERR_BAD_FORMAT;;
  seekg_beg file_pos;;
  let '(aux, buf) :=
    if export_dir_VirtualSize <? 40
    then (export_dir_VirtualSize, store buf (replicate 40 NUL))
    else (40, buf) in
  '(buf, _) ← read_into buf aux;
  let ordinal_base := u16_at buf 0x10 in
  let num_pointers := u32_at buf 0x14 in
  let num_sections := u32_at buf 0x18 in
  let pointers_array := do_RVA_2_FileOffset sections (u32_at buf 0x1C) in
  let psymbols_array := do_RVA_2_FileOffset sections (u32_at buf 0x20) in
  let ordinals_array := do_RVA_2_FileOffset sections (u32_at buf 0x24) in
  return_if ((num_pointers =? 0) || (num_sections =? 0) || (pointers_array =? 0)
             || (psymbols_array =? 0) || (ordinals_array =? 0)) ERR_NO_EXPORT;;
  mret {| et_sections := sections;
          et_ordinal_base := ordinal_base;
          et_num_names := num_sections;
          et_psymbols_array := psymbols_array;
          et_ordinals_array := ordinals_array |}.

(** The start of a round: the name and the ordinal of the symbol are read
    (dll2def.cpp:215-233).  The result is the cursor of the next round, whose
    [pub_name] holds the name read. *)
Definition read_symbol (t : ExportTables) (c : Cursor) : PE Cursor :=
  seekg_beg (psymbols_array c);;
  i ← read_scalar 4 (i c);
  let psymbols_array := u32 (psymbols_array c + 4) in
  let pub_name := poke (pub_name c) 0 NUL in
  pub_name ←
    ((if negb (i =? 0) then
       let file_pos := do_RVA_2_FileOffset (et_sections t) i in
       return_if (file_pos =? 0) ERR_BAD_FORMAT;;
       seekg_beg file_pos;;
       '(pub_name, gcount) ← read_into pub_name (80 - 3);
       mret (poke pub_name gcount NUL)
     else mret pub_name) : PE (list ascii));
  seekg_beg (ordinals_array c);;
  ordinal ← read_scalar 2 (ordinal c);
  let ordinals_array := u32 (ordinals_array c + 2) in
  mret {| psymbols_array := psymbols_array;
          ordinals_array := ordinals_array;
          i := i;
          ordinal := ordinal;
          pub_name := pub_name |}.

(** The end of a round: the [implib] line (dll2def.cpp:278-286). *)
Definition put_implib (filename : string) (pub_name : list ascii)
    (pub_name_len : Z) : PE (list ascii) :=
  let current_mod := MOD_NO in
  put (lit "implib ");;
  put (lit filename);;
  (if negb (current_mod =? MOD_NO) then put (lit ", STDCALL, 0, ")
   else put (lit ", "));;
  let pub_name := poke pub_name pub_name_len LF in
  let pub_name_len := u32 (pub_name_len + 1) in
  put (take (Z.to_nat pub_name_len) pub_name);;
  mret pub_name.

(** [while (num_sections--)] over the Name Pointer RVA Table
    (dll2def.cpp:213-287). *)
Fixpoint export_loop (filename : string) (t : ExportTables)
    (num_sections : nat) (c : Cursor) : PE unit :=
  match num_sections with
  | O => mret tt
  | S num_sections' =>
      c ← read_symbol t c;
      let pub_name_len := strlen (pub_name c) in
      let '(pub_name, pub_name_len) :=
        if pub_name_len =? 0 then
          let '(pub_name, r) :=
            cprintf (pub_name c) (lit "ord.%")
                    (int_of_u32 (u32 (ordinal c + et_ordinal_base t))) in
          (pub_name, u32 r)
        else (pub_name c, pub_name_len) in
      pub_name ← put_implib filename pub_name pub_name_len;
      export_loop filename t num_sections' (set_pub_name c pub_name)
  end.

Definition parse_pe (filename : string) (file : option (list ascii))
    (junk : Indeterminate) : ERR_CODES * list ascii :=
  match file with
  | None => (ERR_FILE_NOT_FOUND, [])
  | Some bytes =>
      finish ((t ← pe_headers;
               export_loop filename t (Z.to_nat (et_num_names t))
                           (first_cursor t junk))
                {| hFile := ifstream_open bytes; hOut := [] |})
  end.

End Dll2def.

(** ** [parse_pe] of dumpsyms (dumpsyms.cpp:93-278), called with
    [compact = true]: the block under [if (!compact)] is not entered. *)
Module Dumpsyms.

(** [while (num_sections--)] over the section headers (dumpsyms.cpp:164-179). *)
Fixpoint load_sections (num_sections : nat) (buf : list ascii)
    (sections : list RVA_2_FileOffset)
  : PE (list ascii * list RVA_2_FileOffset) :=
  match num_sections with
  | O => mret (buf, sections)
  | S num_sections' =>
      '(buf, gcount) ← read_into buf 0x28;
      return_if (negb (gcount =? 0x28)) ERR_BAD_FORMAT;;
      load_sections num_sections' buf
        (sections ++ [ {| VirtualAddress := u32_at buf 0x0C;
                          VirtualSize := u32_at buf 0x08;
                          FileOffset := u32_at buf 0x14 |} ])
  end.

(** From the read of the MSDOS header to the test that returns
    [ERR_NO_EXPORT] (dumpsyms.cpp:115-207). *)
Definition pe_headers : PE ExportTables :=
  let buf := replicate 1024 NUL in
  (* the MSDOS header *)
  '(buf, gcount) ← read_into buf 0x40;
  return_if (negb (gcount =? 0x40)) ERR_BAD_FORMAT;;
  let aux := u32_at buf 0x3C in
  seekg_beg aux;;
  let file_pos := u32 (aux + 0x1A) in
  (* the COFF file header *)
  '(buf, gcount) ← read_into buf 0x1A;
  return_if (negb (gcount =? 0x1A) || negb (u32_at buf 0 =? 0x4550))
            ERR_BAD_FORMAT;;
  let x64 := u16_at buf 4 =? 0x8664 in
  let num_sections := u8_at buf 6 in
  let size_of_optional_header := u16_at buf 0x14 in
  is_PE32plus ←
    ((if 2 <? size_of_optional_header then
       let aux := u16_at buf 0x18 in
       return_if (negb (aux =? 0x10B) && negb (aux =? 0x20B)) ERR_BAD_FORMAT;;
       mret (aux =? 0x20B)
     else mret false) : PE bool);
  (* the DEF header *)
  put (lit "include 'implib" ++ (if x64 then lit "64" else lit "")
         ++ lit ".inc'" ++ [LF; LF]);;
  let aux := if (is_PE32plus : bool) then 0x78 else 0x68 in
  return_if (size_of_optional_header <? aux) ERR_NO_EXPORT;;
  (* Optional Header -> Data Directories -> Export Table *)
  let aux := u32 (aux - 0xA) in
  let file_pos := u32 (file_pos + aux) in
  seekg_cur aux;;
  let file_pos := u32 (file_pos - aux + size_of_optional_header - 2) in
  '(export_dir, gcount) ← read_into [] 8;
  return_if (negb (gcount =? 8)) ERR_BAD_FORMAT;;
  let export_dir_VirtualAddress := u32_at export_dir 0 in
  let export_dir_VirtualSize := u32_at export_dir 4 in
  return_if ((export_dir_VirtualAddress =? 0) || (export_dir_VirtualSize =? 0))
            ERR_NO_EXPORT;;
  (* the Section Headers Table *)
  seekg_beg file_pos;;
  '(buf, sections) ← load_sections (Z.to_nat num_sections) buf [];
  (* the Export directory *)
  let file_pos := do_RVA_2_FileOffset sections export_dir_VirtualAddress in
  return_if (file_pos =? 0) ERR_BAD_FORMAT;;
  seekg_beg file_pos;;
  let '(aux, buf) :=
    if export_dir_VirtualSize <? 40
    then (export_dir_VirtualSize, store buf (replicate 40 NUL))
    else (40, buf) in
  '(buf, _) ← read_into buf aux;
  let ordinal_base := u16_at buf 0x10 in
  let num_pointers := u32_at buf 0x14 in
  let num_sections := u32_at buf 0x18 in
  let pointers_array := do_RVA_2_FileOffset sections (u32_at buf 0x1C) in
  let psymbols_array := do_RVA_2_FileOffset sections (u32_at buf 0x20) in
  let ordinals_array := do_RVA_2_FileOffset sections (u32_at buf 0x24) in
  return_if ((num_pointers =? 0) || (num_sections =? 0) || (pointers_array =? 0)
             || (psymbols_array =? 0) || (ordinals_array =? 0)) ERR_NO_EXPORT;;
  mret {| et_sections := sections;
          et_ordinal_base := ordinal_base;
          et_num_names := num_sections;
          et_psymbols_array := psymbols_array;
          et_ordinals_array := ordinals_array |}.

(** The start of a round: the name and the ordinal of the symbol are read
    (dumpsyms.cpp:211-229).  The result is the cursor of the next round, whose
    [pub_name] holds the name read. *)
Definition read_symbol (t : ExportTables) (c : Cursor) : PE Cursor :=
  seekg_beg (psymbols_array c);;
  i ← read_scalar 4 (i c);
  let psymbols_array := u32 (psymbols_array c + 4) in
  let pub_name := poke (pub_name c) 0 NUL in
  pub_name ←
    ((if negb (i =? 0) then
       let file_pos := do_RVA_2_FileOffset (et_sections t) i in
       return_if (file_pos =? 0) ERR_BAD_FORMAT;;
       seekg_beg file_pos;;
       '(pub_name, gcount) ← read_into pub_name (80 - 3);
       mret (poke pub_name gcount NUL)
     else mret pub_name) : PE (list ascii));
  seekg_beg (ordinals_array c);;
  ordinal ← read_scalar 2 (ordinal c);
  let ordinals_array := u32 (ordinals_array c + 2) in
  mret {| psymbols_array := psymbols_array;
          ordinals_array := ordinals_array;
          i := i;
          ordinal := ordinal;
          pub_name := pub_name |}.

(** The end of a round: the [implib] line (dumpsyms.cpp:267-275). *)
Definition put_implib (filename : string) (pub_name : list ascii)
    (pub_name_len : Z) : PE (list ascii) :=
  let current_mod := MOD_NO in
  put (lit "implib ");;
  put (lit filename);;
  (if negb (current_mod =? MOD_NO) then put (lit ", STDCALL, 0, ")
   else put (lit ", "));;
  let pub_name := poke pub_name pub_name_len LF in
  let pub_name_len := u32 (pub_name_len + 1) in
  put (take (Z.to_nat pub_name_len) pub_name);;
  mret pub_name.

(** [strcpy(pub_name, text)] *)
Definition strcpy (dest text : list ascii) : list ascii :=
  store dest (text ++ [NUL]).

(** [while (num_sections--)] over the Name Pointer RVA Table
    (dumpsyms.cpp:209-276). *)
Fixpoint export_loop (filename : string) (t : ExportTables)
    (num_sections : nat) (c : Cursor) : PE unit :=
  match num_sections with
  | O => mret tt
  | S num_sections' =>
      c ← read_symbol t c;
      let pub_name_len := strlen (pub_name c) in
      let '(pub_name, pub_name_len) :=
        if pub_name_len =? 0 then
          let ss := lit "ord." ++ decimal (u32 (ordinal c + et_ordinal_base t)) in
          (strcpy (pub_name c) ss, Z.of_nat (length ss))
        else (pub_name c, pub_name_len) in
      pub_name ← put_implib filename pub_name pub_name_len;
      export_loop filename t num_sections' (set_pub_name c pub_name)
  end.

Definition parse_pe (filename : string) (file : option (list ascii))
    (junk : Indeterminate) : ERR_CODES * list ascii :=
  match file with
  | None => (ERR_FILE_NOT_FOUND, [])
  | Some bytes =>
      finish ((t ← pe_headers;
               export_loop filename t (Z.to_nat (et_num_names t))
                           (first_cursor t junk))
                {| hFile := ifstream_open bytes; hOut := [] |})
  end.

End Dumpsyms.

(** ** COFF objects and the collaborators of the builder

    [CImportLibraryBuilder] talks to an [IImpSectionBuilder] (one per
    architecture) and to an [ILibraryBuilder]; both are interfaces in the
    sources at hand. *)

Inductive Arch := ArchX86 | ArchX64.

(** Modelled from the spec: the Import-Section Synthesizer (ImpImpl.cpp is
    missing), which "produces one COFF object per logical member of an import
    library".  What a call writes into the object it is handed is recorded as
    the call itself: the family of the member and the arguments. *)
Inductive ImpSection :=
| ImportDescriptor (szDllName : string)
| NullDescriptor
| ImportByNameThunk (szDllName szImpName : string)
                    (szFuncName : option string) (szDllExpName : string)
| ImportByOrdinalThunk (szDllName szImpName : string)
                       (szFuncName : option string) (nOrdinal : Z)
| ImportThunk (szDllName szImpName : string) (szFuncName : option string)
              (szImportName : string) (nOrdinal : Z)
| NullThunk (szDllName : string).

(** An [ICoffBuilder]: the factory that created it and what has been built
    into it since. *)
Record CoffObject := {
  coff_arch : Arch;
  coff_built : list ImpSection
}.

(** Objects live in a heap and are passed by pointer: a pointer is the index
    of the object in the heap. *)
Definition CreateCoffBuilder (a : Arch) (heap : list CoffObject)
  : nat * list CoffObject :=
  (length heap, heap ++ [ {| coff_arch := a; coff_built := [] |} ]).

(** A [Build...] method of the section builder, writing into [*obj]. *)
Definition sec_build (what : ImpSection) (obj : nat) (heap : list CoffObject)
  : list CoffObject :=
  alter (fun o => {| coff_arch := coff_arch o;
                     coff_built := coff_built o ++ [what] |}) obj heap.

(** Modelled from the spec: the Archive Emitter (LibImpl.cpp is missing; only
    the interface [ILibraryBuilder] is at hand), which "accepts a sequence of
    (memberName, coffObject) pairs in insertion order, then exposes total
    length and raw bytes".  Its state is the sequence of calls it has
    received. *)
Inductive LibCall :=
| AddObject (szName : string) (obj : nat)
| FillOffsets.

Definition CreateLibraryBuilder : list LibCall := [].

(** What the emitter has in hand when it is asked for bytes: each call with
    the contents of the object it points to. *)
Inductive LibView :=
| AddedObject (szName : string) (content : option CoffObject)
| FilledOffsets.

Definition view_call (heap : list CoffObject) (c : LibCall) : LibView :=
  match c with
  | AddObject szName obj => AddedObject szName (heap !! obj)
  | FillOffsets => FilledOffsets
  end.

Definition lib_view (heap : list CoffObject) (calls : list LibCall)
  : list LibView :=
  view_call heap <$> calls.

(** ** [CImportLibraryBuilder<Arch>] (LibGenHelperImpl.cpp:35-110) *)

Record CImportLibraryBuilder := {
  m_arch : Arch;                     (* the template argument *)
  m_libBuilder : list LibCall;
  m_dllName : string;
  m_memName : string;
  m_todispose : list nat
}.

Definition CreateObject (heap : list CoffObject) (b : CImportLibraryBuilder)
  : nat * list CoffObject * CImportLibraryBuilder :=
  let '(r, heap) := CreateCoffBuilder (m_arch b) heap in
  (r, heap, {| m_arch := m_arch b;
               m_libBuilder := m_libBuilder b;
               m_dllName := m_dllName b;
               m_memName := m_memName b;
               m_todispose := m_todispose b ++ [r] |}).

(** [m_libBuilder->AddObject(szName, obj)] and [m_libBuilder->FillOffsets()] *)
Definition lib_call (c : LibCall) (b : CImportLibraryBuilder)
  : CImportLibraryBuilder :=
  {| m_arch := m_arch b;
     m_libBuilder := m_libBuilder b ++ [c];
     m_dllName := m_dllName b;
     m_memName := m_memName b;
     m_todispose := m_todispose b |}.

(** The constructor. *)
Definition new_CImportLibraryBuilder (a : Arch) (szDllName szMemName : string)
    (heap : list CoffObject) : list CoffObject * CImportLibraryBuilder :=
  let b := {| m_arch := a;
              m_libBuilder := CreateLibraryBuilder;
              m_dllName := szDllName;
              m_memName := szMemName;
              m_todispose := [] |} in
  let '(impdesc, heap, b) := CreateObject heap b in
  let heap := sec_build (ImportDescriptor szDllName) impdesc heap in
  let b := lib_call (AddObject szMemName impdesc) b in
  let '(nuldesc, heap, b) := CreateObject heap b in
  let heap := sec_build NullDescriptor nuldesc heap in
  let b := lib_call (AddObject szMemName nuldesc) b in
  (heap, b).

Definition AddImportFunctionByName (szImpName : string)
    (szFuncName : option string) (szDllExpName : string)
    (heap : list CoffObject) (b : CImportLibraryBuilder)
  : list CoffObject * CImportLibraryBuilder :=
  let '(impMember, heap, b) := CreateObject heap b in
  let heap := sec_build (ImportByNameThunk (m_dllName b) szImpName szFuncName
                                           szDllExpName) impMember heap in
  (heap, lib_call (AddObject (m_memName b) impMember) b).

Definition AddImportFunctionByOrdinal (szImpName : string)
    (szFuncName : option string) (nOrdinal : Z)
    (heap : list CoffObject) (b : CImportLibraryBuilder)
  : list CoffObject * CImportLibraryBuilder :=
  let '(impMember, heap, b) := CreateObject heap b in
  let heap := sec_build (ImportByOrdinalThunk (m_dllName b) szImpName szFuncName
                                              nOrdinal) impMember heap in
  (heap, lib_call (AddObject (m_memName b) impMember) b).

Definition AddImportFunctionByNameWithHint (szImpName : string)
    (szFuncName : option string) (szImportName : string) (nOrdinal : Z)
    (heap : list CoffObject) (b : CImportLibraryBuilder)
  : list CoffObject * CImportLibraryBuilder :=
  let '(impMember, heap, b) := CreateObject heap b in
  let heap := sec_build (ImportThunk (m_dllName b) szImpName szFuncName
                                     szImportName nOrdinal) impMember heap in
  (heap, lib_call (AddObject (m_memName b) impMember) b).

Definition Build (heap : list CoffObject) (b : CImportLibraryBuilder)
  : list CoffObject * CImportLibraryBuilder :=
  let '(nullThunk, heap, b) := CreateObject heap b in
  let heap := sec_build (NullThunk (m_dllName b)) nullThunk heap in
  let b := lib_call (AddObject (m_memName b) nullThunk) b in
  (heap, lib_call FillOffsets b).

Definition CreateX86ImpLibBuilder := new_CImportLibraryBuilder ArchX86.
Definition CreateX64ImpLibBuilder := new_CImportLibraryBuilder ArchX64.

(** ** Runs of a builder *)

(** One of the three add-import calls, with its arguments. *)
Inductive AddImport :=
| ByName (szImpName : string) (szFuncName : option string)
         (szDllExpName : string)
| ByOrdinal (szImpName : string) (szFuncName : option string) (nOrdinal : Z)
| ByNameWithHint (szImpName : string) (szFuncName : option string)
                 (szImportName : string) (nOrdinal : Z).

Definition add_import (a : AddImport)
    (st : list CoffObject * CImportLibraryBuilder)
  : list CoffObject * CImportLibraryBuilder :=
  match a with
  | ByName imp func exp => AddImportFunctionByName imp func exp st.1 st.2
  | ByOrdinal imp func n => AddImportFunctionByOrdinal imp func n st.1 st.2
  | ByNameWithHint imp func name n =>
      AddImportFunctionByNameWithHint imp func name n st.1 st.2
  end.

Definition add_imports (adds : list AddImport)
    (st : list CoffObject * CImportLibraryBuilder)
  : list CoffObject * CImportLibraryBuilder :=
  foldl (fun st a => add_import a st) st adds.

(** Construction, the add-import calls in order, then [Build()], in a process
    whose heap is [heap] at the start. *)
Definition run_builder (heap : list CoffObject) (a : Arch)
    (szDllName szMemName : string) (adds : list AddImport)
  : list CoffObject * CImportLibraryBuilder :=
  let st := add_imports adds (new_CImportLibraryBuilder a szDllName szMemName heap) in
  Build st.1 st.2.

(** The thunk member an add-import call asks the synthesizer for. *)
Definition thunk_of (szDllName : string) (a : AddImport) : ImpSection :=
  match a with
  | ByName imp func exp => ImportByNameThunk szDllName imp func exp
  | ByOrdinal imp func n => ImportByOrdinalThunk szDllName imp func n
  | ByNameWithHint imp func name n => ImportThunk szDllName imp func name n
  end.

Definition member_of (a : Arch) (szMemName : string) (what : ImpSection)
  : LibView :=
  AddedObject szMemName (Some {| coff_arch := a; coff_built := [what] |}).

Definition is_member (v : LibView) : bool :=
  match v with AddedObject _ _ => true | FilledOffsets => false end.

Definition is_fill (c : LibCall) : bool :=
  match c with FillOffsets => true | AddObject _ _ => false end.

(** ** Several builders in one process *)

Inductive Call :=
| Add (a : AddImport)
| CallBuild.

Definition call (c : Call) (st : list CoffObject * CImportLibraryBuilder)
  : list CoffObject * CImportLibraryBuilder :=
  match c with
  | Add a => add_import a st
  | CallBuild => Build st.1 st.2
  end.

(** The process: one heap, and the builder instances by identity. *)
Record World := {
  heap : list CoffObject;
  instances : gmap nat CImportLibraryBuilder
}.

Inductive Event :=
| Create (id : nat) (a : Arch) (szDllName szMemName : string)
| Invoke (id : nat) (c : Call).

Definition event_id (e : Event) : nat :=
  match e with Create id _ _ _ => id | Invoke id _ => id end.

Definition step (w : World) (e : Event) : World :=
  match e with
  | Create id a szDllName szMemName =>
      let '(h, b) := new_CImportLibraryBuilder a szDllName szMemName (heap w) in
      {| heap := h; instances := <[id := b]> (instances w) |}
  | Invoke id c =>
      match instances w !! id with
      | Some b =>
          let '(h, b) := call c (heap w, b) in
          {| heap := h; instances := <[id := b]> (instances w) |}
      | None => w
      end
  end.

Definition run_world (w : World) (es : list Event) : World := foldl step w es.

Definition fresh_world (heap : list CoffObject) : World :=
  {| heap := heap; instances := ∅ |}.

(** What the archive emitter of instance [id] has in hand. *)
Definition archive_of (w : World) (id : nat) : option (list LibView) :=
  (fun b => lib_view (heap w) (m_libBuilder b)) <$> instances w !! id.

(** ** Member names in the archive *)





(** ** The front end (MakeImpLib/main.cpp:52-114) *)

(** A symbol and the input, as [main] has them after the conversions from
    JSON at lines 63-65 and 75-79. *)
Record Symbol := {
  cconv : string;
  name : string;
  ord : Z;
  thunk : string;
  pubname : string
}.

Record Input := {
  dllname : string;
  arch : Z;
  symbols : list Symbol
}.

(** What the file system answers. *)
Record Files := {
  input_file : option Input;       (* [None]: argv[1] cannot be opened *)
  output_opens : bool;
  output_writes : bool
}.

Inductive Outcome :=
| Usage                             (* the usage text, exit status 0 *)
| Failure (msg : string)            (* a [MyMsgException], [EXIT_FAILURE] *)
| Library (bytes : list ascii).     (* the bytes written to argv[2] *)

(** The body of the [for] loop at lines 74-86. *)
Definition add_symbol (st : list CoffObject * CImportLibraryBuilder)
    (symbol : Symbol) : list CoffObject * CImportLibraryBuilder :=
  let cconv := cconv symbol in
  let name := name symbol in
  let ord := ord symbol in
  let thunk := thunk symbol in
  let pubname := pubname symbol in
  if negb (String.eqb name "") then
    AddImportFunctionByName pubname (Some thunk) name st.1 st.2
  else
    AddImportFunctionByOrdinal pubname (Some thunk) ord st.1 st.2.

Section Emitter.

(** The two queries of [IHasRawData] on the archive emitter: any functions
    of what the emitter has in hand. *)
Variable lib_GetDataLength : list LibView -> Z.
Variable lib_GetRawData : list LibView -> list ascii.

Definition GetDataLength (heap : list CoffObject)
    (b : CImportLibraryBuilder) : Z :=
  lib_GetDataLength (lib_view heap (m_libBuilder b)).

Definition GetRawData (heap : list CoffObject)
    (b : CImportLibraryBuilder) : list ascii :=
  lib_GetRawData (lib_view heap (m_libBuilder b)).

Definition main (argc : Z) (fs : Files) : Outcome :=
  if argc =? 3 then
    match input_file fs with
    | None => Failure "Fail to open input file!"
    | Some j =>
        let dllName := dllname j in
        let arch := arch j in
        let symbols := symbols j in
        let st :=
          if arch =? 64 then CreateX64ImpLibBuilder dllName dllName []
          else CreateX86ImpLibBuilder dllName dllName [] in
        let st := foldl add_symbol st symbols in
        let st := Build st.1 st.2 in
        let nFileSize := GetDataLength st.1 st.2 in
        let buffer :=
          store (replicate (Z.to_nat nFileSize) NUL) (GetRawData st.1 st.2) in
        if negb (output_opens fs) then Failure "Fail to create library File!"
        else if negb (output_writes fs) then
          Failure "Failed to write to output file!"
        else Library (take (Z.to_nat nFileSize) buffer)
    end
  else Usage.

End Emitter.

(** The add-import call [main] makes for a symbol. *)
Definition import_of (symbol : Symbol) : AddImport :=
  if negb (String.eqb (name symbol) "")
  then ByName (pubname symbol) (Some (thunk symbol)) (name symbol)
  else ByOrdinal (pubname symbol) (Some (thunk symbol)) (ord symbol).

Definition files_ok (j : Input) : Files :=
  {| input_file := Some j; output_opens := true; output_writes := true |}.

(** Two inputs that differ at most in the [cconv] fields of their symbols. *)
Definition same_but_cconv (s1 s2 : Symbol) : Prop :=
  name s1 = name s2 /\ ord s1 = ord s2 /\ thunk s1 = thunk s2
  /\ pubname s1 = pubname s2.

Definition inputs_same_but_cconv (j1 j2 : Input) : Prop :=
  dllname j1 = dllname j2 /\ arch j1 = arch j2
  /\ Forall2 same_but_cconv (symbols j1) (symbols j2).

(** ** Notions the properties are stated with *)

(** The range of a node as [do_RVA_2_FileOffset] tests it: both ends are
    inside. *)
Definition in_range (node : RVA_2_FileOffset) (RVA : Z) : Prop :=
  VirtualAddress node <= RVA <= u32 (VirtualAddress node + VirtualSize node).

(** A character of a mask that [cprintf] copies: neither the terminator nor
    the place holder. *)
Definition plain_char (c : ascii) : Prop := c <> NUL /\ c <> "%"%char.

(** Every object the emitter was handed is in the heap. *)
Definition handles_valid (heap : list CoffObject) (calls : list LibCall)
  : Prop :=
  Forall (fun c => match c with
                   | AddObject _ obj => (obj < length heap)%nat
                   | FillOffsets => True
                   end) calls.

(** The pattern of every method of the builder in closed form: a new object
    at the end of the heap, filled with [what], handed to the emitter. *)
Definition push_member (what : ImpSection)
    (st : list CoffObject * CImportLibraryBuilder)
  : list CoffObject * CImportLibraryBuilder :=
  (st.1 ++ [ {| coff_arch := m_arch st.2; coff_built := [what] |} ],
   {| m_arch := m_arch st.2;
      m_libBuilder := m_libBuilder st.2
                        ++ [AddObject (m_memName st.2) (length st.1)];
      m_dllName := m_dllName st.2;
      m_memName := m_memName st.2;
      m_todispose := m_todispose st.2 ++ [length st.1] |}).

(** What a call adds to what the emitter has in hand. *)
Definition call_views (a : Arch) (szDllName szMemName : string) (c : Call)
  : list LibView :=
  match c with
  | Add i => [member_of a szMemName (thunk_of szDllName i)]
  | CallBuild => [member_of a szMemName (NullThunk szDllName); FilledOffsets]
  end.

(** Two builders, each in its own heap, that the emitter cannot tell apart. *)
Definition same_builder (st st' : list CoffObject * CImportLibraryBuilder)
  : Prop :=
  m_arch st.2 = m_arch st'.2
  /\ m_dllName st.2 = m_dllName st'.2
  /\ m_memName st.2 = m_memName st'.2
  /\ lib_view st.1 (m_libBuilder st.2) = lib_view st'.1 (m_libBuilder st'.2)
  /\ handles_valid st.1 (m_libBuilder st.2)
  /\ handles_valid st'.1 (m_libBuilder st'.2).

Definition same_instance (id : nat) (w w' : World) : Prop :=
  match instances w !! id, instances w' !! id with
  | Some b, Some b' => same_builder (heap w, b) (heap w', b')
  | None, None => True
  | _, _ => False
  end.

(** The bytes [main] writes for a finished builder. *)
Definition written_bytes (lib_GetDataLength : list LibView -> Z)
    (lib_GetRawData : list LibView -> list ascii)
    (st : list CoffObject * CImportLibraryBuilder) : list ascii :=
  let nFileSize := Z.to_nat (GetDataLength lib_GetDataLength st.1 st.2) in
  take nFileSize
       (store (replicate nFileSize NUL) (GetRawData lib_GetRawData st.1 st.2)).




(** ** Inputs of the examples *)

Definition pad_to (n : nat) (bytes : list ascii) : list ascii :=
  bytes ++ replicate (n - length bytes) NUL.

(** A small PE image: one section at RVA 0x1000 kept at file offset 0x100,
    and in it an export directory with ordinal base 5 and two entries in the
    Name Pointer RVA Table, the name [Foo] and a null pointer. *)
Definition example_dll : list ascii :=
  let dos := pad_to 0x3C [] ++ le_encode 4 0x40 in
  let coff := lit "PE" ++ [NUL; NUL] ++ le_encode 2 0x14C ++ le_encode 2 1
              ++ replicate 12 NUL ++ le_encode 2 0x70 ++ le_encode 2 0
              ++ le_encode 2 0x10B in
  let headers := pad_to 0xB8 (dos ++ coff)
                 ++ le_encode 4 0x1000 ++ le_encode 4 0x80 in
  let section := replicate 8 NUL ++ le_encode 4 0x100 ++ le_encode 4 0x1000
                 ++ le_encode 4 0x100 ++ le_encode 4 0x100 in
  let export_dir := replicate 16 NUL ++ le_encode 4 5 ++ le_encode 4 2
                    ++ le_encode 4 2 ++ le_encode 4 0x1030
                    ++ le_encode 4 0x1040 ++ le_encode 4 0x1050 in
  let image := pad_to 0x100 (pad_to 0xC8 headers ++ section) ++ export_dir in
  let image := pad_to 0x140 image ++ le_encode 4 0x1060 ++ le_encode 4 0 in
  let image := pad_to 0x150 image ++ le_encode 2 0 ++ le_encode 2 1 in
  let image := pad_to 0x160 image ++ lit "Foo" in
  pad_to 0x200 image.

(** A file with a COFF file header for x64 and no optional header. *)
Definition example_object : list ascii :=
  pad_to 0x3C [] ++ le_encode 4 0x40
    ++ lit "PE" ++ [NUL; NUL] ++ le_encode 2 0x8664 ++ replicate 20 NUL.

Definition example_junk : Indeterminate := {| junk_i := 0; junk_ordinal := 0 |}.

Definition example_sections : list RVA_2_FileOffset :=
  [ {| VirtualAddress := 0x1000; VirtualSize := 0x200; FileOffset := 0x400 |};
    {| VirtualAddress := 0x2000; VirtualSize := 0x100; FileOffset := 0x600 |} ].

(** An emitter to run [main] with: it writes the archive signature and one
    line per member it has received. *)
Definition example_GetRawData (v : list LibView) : list ascii :=
  lit "!<arch>" ++ [LF]
    ++ concat ((fun c => match c with
                         | AddedObject szName _ => lit szName ++ lit "/" ++ [LF]
                         | FilledOffsets => []
                         end) <$> v).

Definition example_GetDataLength (v : list LibView) : Z :=
  Z.of_nat (length (example_GetRawData v)).

(** The calls of two builders, interleaved. *)
Definition example_events : list Event :=
  [Create 1 ArchX86 "a.dll" "a.dll"; Create 2 ArchX64 "b.dll" "b.dll";
   Invoke 2 (Add (ByOrdinal "__imp_f" None 7));
   Invoke 1 (Add (ByName "__imp_f" (Some "f") "f"));
   Invoke 2 CallBuild; Invoke 1 CallBuild].

Definition ExitProcess_stdcall : Symbol :=
  {| cconv := "STDCALL"; name := "ExitProcess"; ord := 1;
     thunk := "_ExitProcess@4"; pubname := "__imp__ExitProcess@4" |}.

Definition ExitProcess_cdecl : Symbol :=
  {| cconv := "CDECL"; name := "ExitProcess"; ord := 1;
     thunk := "_ExitProcess@4"; pubname := "__imp__ExitProcess@4" |}.

Definition Proc1_by_ordinal : Symbol :=
  {| cconv := "STDCALL"; name := ""; ord := 17;
     thunk := ""; pubname := "__imp_Proc1" |}.

Definition kernel32_stdcall : Input :=
  {| dllname := "kernel32.dll"; arch := 32;
     symbols := [ExitProcess_stdcall; Proc1_by_ordinal] |}.

(** [ExitProcess] again, with another [cconv] and another [ord]. *)
Definition ExitProcess_ord99 : Symbol :=
  {| cconv := "FASTCALL"; name := "ExitProcess"; ord := 99;
     thunk := "_ExitProcess@4"; pubname := "__imp__ExitProcess@4" |}.

Definition kernel32_ord99 : Input :=
  {| dllname := "kernel32.dll"; arch := 0;
     symbols := [ExitProcess_ord99; Proc1_by_ordinal] |}.

Definition kernel32_cdecl : Input :=
  {| dllname := "kernel32.dll"; arch := 32;
     symbols := [ExitProcess_cdecl; Proc1_by_ordinal] |}.

Definition kernel32_arch16 : Input :=
  {| dllname := "kernel32.dll"; arch := 16;
     symbols := [ExitProcess_stdcall; Proc1_by_ordinal] |}.

(** ** The rest of the two dumpers

    What [parse_pe] writes, the table of messages and [main] of dll2def.cpp
    and dumpsyms.cpp. *)

(** The state a statement leaves, whether it returns or goes on. *)
Definition state_of {A} (r : Step A) : PEState :=
  match r with
  | Return _ st => st
  | Next _ st => st
  end.

(** The DEF header (dll2def.cpp:148, dumpsyms.cpp:144) and an [implib]
    line. *)
Definition include_line (x64 : bool) : list ascii :=
  lit "include 'implib" ++ (if x64 then lit "64" else lit "")
    ++ lit ".inc'" ++ [LF; LF].

Definition implib_line (filename : string) (text : list ascii) : list ascii :=
  lit "implib " ++ lit filename ++ lit ", " ++ text ++ [LF].

(** The text of a symbol on its line: not empty, without NUL, and of at most
    [sizeof(pub_name) - 3] bytes. *)
Definition symbol_text (text : list ascii) : Prop :=
  text <> [] /\ (NUL ∉ text) /\ (length text <= 77)%nat.

(** The values of [enum ERR_CODES]. *)
Definition err_code (rc : ERR_CODES) : Z :=
  match rc with
  | ERR_OK => 0
  | ERR_FILE_NOT_FOUND => 1
  | ERR_OUTPUT => 2
  | ERR_BAD_FORMAT => 3
  | ERR_NO_EXPORT => 4
  | ERR_NO_FREE_MEM => 5
  | ERR_BAD_FILENAME => 6
  end.

(** [error_msgs] (dll2def.cpp:41-47, dumpsyms.cpp:59-65); every message
    starts with a double quote. *)
Definition QUOTE : ascii := "034"%char.

Definition error_msgs : list (list ascii) :=
  [ QUOTE :: lit ": File locked or not found" ++ [LF];
    QUOTE :: lit ": Error opening the output file" ++ [LF];
    QUOTE :: lit ": Unreadable or invalid PE image" ++ [LF];
    QUOTE :: lit ": No export found" ++ [LF];
    QUOTE :: lit ": Not enough memory" ++ [LF];
    QUOTE :: lit ": Not a valid filename" ++ [LF] ].

(** What a run of a dumper leaves: the exit status, the output file it has
    created (its name and its text) and what went to [std::cerr]. *)
Record DumperRun := {
  exit_status : Z;
  created : option string;
  out_text : list ascii;
  err_text : list ascii
}.

(** [argv[2][0] != '/'] *)
Definition starts_with_slash (s : string) : bool :=
  match s with
  | String c _ => Ascii.eqb c "/"%char
  | EmptyString => false
  end.

(** The loop that looks for the /COMPACT switch in [argv[2..argc-1]]. *)
Definition has_compact (argv : list string) : bool :=
  existsb (String.eqb "/COMPACT") (drop 2 argv).

(** The name of the output file: [argv[2]] when it is there and is no
    switch, the name of the input with the extension of the tool otherwise. *)
Definition output_filename (extension : string) (argv : list string)
  : string :=
  let argc := Z.of_nat (length argv) in
  let filename := nth 1 argv ""%string in
  if (2 <? argc) && negb (starts_with_slash (nth 2 argv ""%string))
  then nth 2 argv ""%string
  else (filename +:+ extension)%string.

Section Dumpers.

(** [parse_pe] with [compact = false], of either tool: the block under
    [if (!compact)] is not embedded (in dll2def it reads [dll_name] and
    [dll_name_len], which are never set), so the call is a parameter. *)
Variable parse_pe_comments :
  string -> option (list ascii) -> ERR_CODES * list ascii.

(** [main] of dll2def.cpp (lines 291-324) and of dumpsyms.cpp (lines
    280-313), which differ in the usage text and in the extension of the
    default output name.  [files] is the file system; the output file is
    created, and so emptied, before the input is opened. *)
Definition dumper_main (tool extension : string)
    (parse_pe_compact :
       string -> option (list ascii) -> Indeterminate
       -> ERR_CODES * list ascii)
    (argv : list string) (files : string -> option (list ascii))
    (can_create : string -> bool) (junk : Indeterminate) : DumperRun :=
  let argc := Z.of_nat (length argv) in
  if argc <? 2 then
    {| exit_status := 1; created := None; out_text := [];
       err_text := lit "USAGE: " ++ lit tool
                     ++ lit " file [output] [/COMPACT]" ++ [LF] |}
  else
    let filename := nth 1 argv ""%string in
    let output_filename := output_filename extension argv in
    let compact := has_compact argv in
    if negb (can_create output_filename) then
      {| exit_status := err_code ERR_OUTPUT; created := None; out_text := [];
         err_text := lit "Error opening the output file" ++ [LF] |}
    else
      let file := if String.eqb output_filename filename then Some []
                  else files filename in
      let '(result, text) :=
        if compact then parse_pe_compact filename file junk
        else parse_pe_comments filename file in
      let err :=
        match result with
        | ERR_OK => []
        | _ => lit "Error: "
                 ++ default [] (error_msgs !! Z.to_nat (err_code result - 1))
                 ++ [LF]
        end in
      {| exit_status := 0; created := Some output_filename;
         out_text := text ++ [LF] ++ lit "endlib" ++ [LF];
         err_text := err |}.

Definition dll2def_main :=
  dumper_main "dll2def" ".def" Dll2def.parse_pe.

Definition dumpsyms_main :=
  dumper_main "DUMPSYMBOLS" ".txt" Dumpsyms.parse_pe.

End Dumpers.

(** ** The rest of the builder *)

(** [Dispose()] (LibGenHelperImpl.cpp:66-73): the objects whose [Dispose] it
    calls, in order; then the builder deletes itself. *)
Definition Dispose (b : CImportLibraryBuilder) : list nat := m_todispose b.

(** The objects the archive emitter was handed, in order. *)
Definition added_objects (calls : list LibCall) : list nat :=
  omap (fun c => match c with
                 | AddObject _ obj => Some obj
                 | FillOffsets => None
                 end) calls.

(** Any sequence of calls on a new builder. *)
Definition run_calls (heap : list CoffObject) (a : Arch)
    (szDllName szMemName : string) (cs : list Call)
  : list CoffObject * CImportLibraryBuilder :=
  foldl (fun st c => call c st)
        (new_CImportLibraryBuilder a szDllName szMemName heap) cs.

(** Two inputs that differ at most in the fields [main] does not use: the
    [cconv] of every symbol and the [ord] of a symbol with a name. *)
Definition same_used_fields (s1 s2 : Symbol) : Prop :=
  name s1 = name s2 /\ thunk s1 = thunk s2 /\ pubname s1 = pubname s2
  /\ (name s1 = ""%string -> ord s1 = ord s2).

(** The section a call has the synthesizer build. *)
Definition section_of (szDllName : string) (c : Call) : ImpSection :=
  match c with
  | Add i => thunk_of szDllName i
  | CallBuild => NullThunk szDllName
  end.

(** An object as a method of the builder leaves it: created by the factory
    of the architecture and written once. *)
Definition object_of (a : Arch) (what : ImpSection) : CoffObject :=
  {| coff_arch := a; coff_built := [what] |}.

(** A builder constructed in a heap of [n] objects that has created [k]
    objects since: they are the [k] objects after the first [n], all are to
    be disposed of and all have been handed to the emitter. *)
Definition owns (n k : nat) (st : list CoffObject * CImportLibraryBuilder)
  : Prop :=
  length st.1 = (n + k)%nat
  /\ Dispose st.2 = seq n k
  /\ added_objects (m_libBuilder st.2) = seq n k.

(** The objects instance [id] disposes of. *)
Definition owned (w : World) (id : nat) : list nat :=
  default [] (Dispose <$> instances w !! id).

(** No object of the heap before [n0] is to be disposed of, no object is to
    be disposed of twice, nor by two instances. *)
Definition world_ok (n0 : nat) (w : World) : Prop :=
  (n0 <= length (heap w))%nat
  /\ (forall id b, instances w !! id = Some b ->
       NoDup (m_todispose b)
       /\ Forall (fun o => (n0 <= o < length (heap w))%nat) (m_todispose b))
  /\ (forall id1 id2 b1 b2 o, id1 <> id2 ->
       instances w !! id1 = Some b1 -> instances w !! id2 = Some b2 ->
       o ∈ m_todispose b1 -> o ∈ m_todispose b2 -> False).

(** The COFF file header as [parse_pe] reads it: the 0x1A bytes at the
    offset that the MSDOS header gives at 0x3C (the signature, the header and
    the magic number of the optional header). *)
Definition coff_header (bytes : list ascii) : list ascii :=
  bytes_at bytes (u32_at bytes 0x3C) 0x1A.

(** * Properties *)

(** ** [do_RVA_2_FileOffset] *)

Lemma rva_in_node_spec node RVA :
  rva_in_node node RVA = true <-> in_range node RVA.
Proof.
  unfold rva_in_node, in_range.
  rewrite andb_true_iff, !Z.leb_le. tauto.
Qed.

Lemma do_RVA_skip before rest RVA :
  Forall (fun s => ~ in_range s RVA) before ->
  do_RVA_2_FileOffset (before ++ rest) RVA = do_RVA_2_FileOffset rest RVA.
Proof.
  induction 1 as [|s before Hs _ IH]; simpl; [done|].
  destruct (rva_in_node s RVA) eqn:E; [|done].
  apply rva_in_node_spec in E. contradiction.
Qed.

(** C10.  [do_RVA_2_FileOffset] returns [RVA - VirtualAddress + FileOffset]
    (in [uint32_t] arithmetic) of the first node of the list whose range
    contains the RVA, returns 0 when no node's range contains it, and the
    range is closed at both ends: [VirtualAddress] and
    [VirtualAddress + VirtualSize] are both inside. *)
Theorem do_RVA_2_FileOffset_first_match (sections : list RVA_2_FileOffset) (RVA : Z) :
  (forall before node after,
      sections = before ++ node :: after ->
      Forall (fun s => ~ in_range s RVA) before ->
      in_range node RVA ->
      do_RVA_2_FileOffset sections RVA
      = u32 (RVA - VirtualAddress node + FileOffset node))
  /\ (Forall (fun s => ~ in_range s RVA) sections ->
      do_RVA_2_FileOffset sections RVA = 0)
  /\ (forall node,
      0 <= VirtualSize node ->
      VirtualAddress node + VirtualSize node < 2 ^ 32 ->
      0 <= VirtualAddress node ->
      in_range node (VirtualAddress node)
      /\ in_range node (VirtualAddress node + VirtualSize node)
      /\ do_RVA_2_FileOffset (node :: sections)
           (VirtualAddress node + VirtualSize node)
         = u32 (VirtualSize node + FileOffset node)).
Proof.
  split; [|split].
  - intros before node after -> Hbefore Hnode.
    rewrite do_RVA_skip by done. simpl.
    apply rva_in_node_spec in Hnode. by rewrite Hnode.
  - intros Hnone. rewrite <- (app_nil_r sections).
    by rewrite do_RVA_skip.
  - intros node Hsize Hsum Hva.
    assert (Hu : u32 (VirtualAddress node + VirtualSize node)
                 = VirtualAddress node + VirtualSize node)
      by (unfold u32; apply Z.mod_small; lia).
    assert (Hend : in_range node (VirtualAddress node + VirtualSize node))
      by (unfold in_range; rewrite Hu; lia).
    split; [unfold in_range; rewrite Hu; lia|]. split; [done|].
    simpl. apply rva_in_node_spec in Hend. rewrite Hend.
    f_equal. lia.
Qed.

Lemma do_RVA_2_FileOffset_first_match_witness :
  do_RVA_2_FileOffset example_sections 0x2100 = 0x700
  /\ do_RVA_2_FileOffset example_sections 0x3000 = 0
  /\ do_RVA_2_FileOffset
       ({| VirtualAddress := 0x1000; VirtualSize := 0x200;
           FileOffset := 0x400 |} :: example_sections) 0x1200
     = 0x600.
Proof.
  destruct (do_RVA_2_FileOffset_first_match example_sections 0x2100)
    as (Hfirst & _ & _).
  destruct (do_RVA_2_FileOffset_first_match example_sections 0x3000)
    as (_ & Hnone & _).
  destruct (do_RVA_2_FileOffset_first_match example_sections 0x1200)
    as (_ & _ & Hend).
  split; [|split].
  - apply (Hfirst
             [ {| VirtualAddress := 0x1000; VirtualSize := 0x200;
                  FileOffset := 0x400 |} ]
             {| VirtualAddress := 0x2000; VirtualSize := 0x100;
                FileOffset := 0x600 |} []).
    + reflexivity.
    + constructor; [|constructor].
      rewrite <- rva_in_node_spec. vm_compute. discriminate.
    + apply rva_in_node_spec. reflexivity.
  - apply Hnone.
    constructor; [|constructor; [|constructor]];
      rewrite <- rva_in_node_spec; vm_compute; discriminate.
  - apply (Hend {| VirtualAddress := 0x1000; VirtualSize := 0x200;
                   FileOffset := 0x400 |}); simpl; lia.
Defined.

(** ** Characters and digits *)

Lemma code_char_of_int z : 0 <= z < 256 -> code (char_of_int z) = z.
Proof.
  intros Hz. unfold code, char_of_int.
  rewrite Z.mod_small by done.
  rewrite N_ascii_embedding by lia. lia.
Qed.

Lemma code_digit_char d : 0 <= d < 10 -> code (digit_char d) = 48 + d.
Proof. intros Hd. unfold digit_char. apply code_char_of_int. lia. Qed.

Lemma digits_value_snoc ds c :
  digits_value (ds ++ [c]) = 10 * digits_value ds + (code c - 48).
Proof. unfold digits_value. by rewrite fold_left_app. Qed.

Lemma length_fixed_digits k n : length (fixed_digits k n) = k.
Proof.
  revert n. induction k as [|k IH]; intros n; simpl; [done|].
  rewrite length_app, IH. simpl. lia.
Qed.

Lemma digits_value_fixed k n :
  0 <= n -> digits_value (fixed_digits k n) = n mod 10 ^ Z.of_nat k.
Proof.
  revert n. induction k as [|k IH]; intros n Hn.
  - simpl. by rewrite Z.mod_1_r.
  - cbn [fixed_digits]. rewrite digits_value_snoc, IH by (apply Z.div_pos; lia).
    rewrite code_digit_char by (apply Z.mod_pos_bound; lia).
    rewrite Nat2Z.inj_succ, Z.pow_succ_r by lia.
    assert (0 < 10 ^ Z.of_nat k) by (apply Z.pow_pos_nonneg; lia).
    rewrite Z.rem_mul_r by lia. lia.
Qed.

Lemma Forall_digit_fixed k n : Forall is_digit (fixed_digits k n).
Proof.
  revert n. induction k as [|k IH]; intros n; simpl; [constructor|].
  apply Forall_app. split; [apply IH|].
  constructor; [|constructor]. unfold is_digit.
  pose proof (Z.mod_pos_bound n 10 ltac:(lia)).
  rewrite code_digit_char; lia.
Qed.

Lemma decimal_aux_S fuel n acc :
  decimal_aux (S fuel) n acc
  = if n / 10 =? 0 then digit_char (n mod 10) :: acc
    else decimal_aux fuel (n / 10) (digit_char (n mod 10) :: acc).
Proof. reflexivity. Qed.

(** [decimal] writes exactly as many digits as the number has. *)
Lemma decimal_aux_fixed k : forall fuel n acc,
  (k <= fuel)%nat ->
  (k = 0%nat /\ 0 <= n < 10 \/ 10 ^ Z.of_nat k <= n < 10 ^ Z.of_nat (S k)) ->
  decimal_aux (S fuel) n acc = fixed_digits (S k) n ++ acc.
Proof.
  induction k as [|k IH]; intros fuel n acc Hfuel Hn.
  - assert (Hsmall : 0 <= n < 10) by (simpl in Hn; lia).
    rewrite decimal_aux_S, Z.div_small by done. done.
  - destruct Hn as [[? _]|Hn]; [done|].
    destruct fuel as [|fuel]; [lia|].
    rewrite !Nat2Z.inj_succ, !Z.pow_succ_r in Hn by lia.
    assert (Hq : 10 ^ Z.of_nat k <= n / 10 < 10 * 10 ^ Z.of_nat k).
    { split; [apply Z.div_le_lower_bound; lia|apply Z.div_lt_upper_bound; lia]. }
    assert (Hpos : 0 < 10 ^ Z.of_nat k) by (apply Z.pow_pos_nonneg; lia).
    rewrite decimal_aux_S. destruct (n / 10 =? 0) eqn:E; [apply Z.eqb_eq in E; lia|].
    rewrite (IH fuel (n / 10)); [|lia|].
    + cbn [fixed_digits]. by rewrite <- !app_assoc.
    + right. rewrite Nat2Z.inj_succ, Z.pow_succ_r by lia. done.
Qed.

Lemma decimal_fixed k n :
  (k = 0%nat /\ 0 <= n < 10 \/ 10 ^ Z.of_nat k <= n < 10 ^ Z.of_nat (S k)) ->
  decimal n = fixed_digits (S k) n.
Proof.
  intros Hn. unfold decimal.
  rewrite (decimal_aux_fixed k); [by rewrite app_nil_r| |done].
  destruct Hn as [[-> _]|Hn]; [lia|].
  assert (Z.of_nat k <= Z.log2 n); [|lia].
  apply Z.log2_le_pow2.
  - pose proof (Z.pow_pos_nonneg 10 (Z.of_nat k)). lia.
  - etrans; [|apply Hn]. apply Z.pow_le_mono_l. lia.
Qed.

(** The number of digits [cprintf] reserves is the number [decimal] writes,
    for the numbers of at most six digits. *)
Lemma decimal_cprintf_len n :
  0 <= n <= 999999 ->
  decimal n = fixed_digits (Z.to_nat (cprintf_len n)) n.
Proof.
  intros Hn. unfold cprintf_len.
  repeat case_match; rewrite ?Z.leb_le, ?Z.leb_gt in *.
  - apply (decimal_fixed 0). left. lia.
  - apply (decimal_fixed 1). right. simpl. lia.
  - apply (decimal_fixed 2). right. simpl. lia.
  - apply (decimal_fixed 3). right. simpl. lia.
  - apply (decimal_fixed 4). right. simpl. lia.
  - apply (decimal_fixed 5). right. simpl. lia.
Qed.

Lemma head_fixed_digits k n :
  0 <= n ->
  head (fixed_digits (S k) n) = Some (digit_char ((n / 10 ^ Z.of_nat k) mod 10)).
Proof.
  revert n. induction k as [|k IH]; intros n Hn.
  - simpl. by rewrite Z.div_1_r.
  - change (fixed_digits (S (S k)) n)
      with (fixed_digits (S k) (n / 10) ++ [digit_char (n mod 10)]).
    specialize (IH (n / 10) ltac:(apply Z.div_pos; lia)).
    destruct (fixed_digits (S k) (n / 10)) as [|d ds]; [done|].
    simpl in *. rewrite IH.
    rewrite Nat2Z.inj_succ, Z.pow_succ_r by lia.
    rewrite Z.div_div by (try apply Z.pow_pos_nonneg; lia). done.
Qed.

Lemma decimal_properties n :
  0 <= n <= 999999 ->
  digits_value (decimal n) = n
  /\ Forall is_digit (decimal n)
  /\ (n = 0 -> decimal n = ["0"%char])
  /\ (0 < n -> head (decimal n) <> Some "0"%char).
Proof.
  intros Hn.
  assert (Hk : exists k : nat,
             (k = 0%nat /\ 0 <= n < 10
              \/ 10 ^ Z.of_nat k <= n < 10 ^ Z.of_nat (S k))
             /\ n < 10 ^ Z.of_nat (S k)).
  { destruct (Z_lt_dec n 10); [exists 0%nat; simpl; lia|].
    destruct (Z_lt_dec n 100); [exists 1%nat; simpl; lia|].
    destruct (Z_lt_dec n 1000); [exists 2%nat; simpl; lia|].
    destruct (Z_lt_dec n 10000); [exists 3%nat; simpl; lia|].
    destruct (Z_lt_dec n 100000); [exists 4%nat; simpl; lia|].
    exists 5%nat; simpl; lia. }
  destruct Hk as (k & Hk & Hlt).
  rewrite (decimal_fixed k n Hk).
  split; [|split; [|split]].
  - rewrite digits_value_fixed by lia. apply Z.mod_small. lia.
  - apply Forall_digit_fixed.
  - intros ->. destruct Hk as [[-> _]|Hk]; [done|].
    pose proof (Z.pow_pos_nonneg 10 (Z.of_nat k)). lia.
  - intros Hpos. rewrite head_fixed_digits by lia.
    intros [= Hd].
    assert (Hq : 1 <= n / 10 ^ Z.of_nat k < 10).
    { destruct Hk as [[-> _]|Hk]; [rewrite Z.div_1_r; lia|].
      assert (0 < 10 ^ Z.of_nat k) by (apply Z.pow_pos_nonneg; lia).
      rewrite Nat2Z.inj_succ, Z.pow_succ_r in Hk by lia.
      split; [apply Z.div_le_lower_bound; lia
             |apply Z.div_lt_upper_bound; lia]. }
    rewrite Z.mod_small in Hd by lia.
    apply (f_equal code) in Hd. rewrite code_digit_char in Hd by lia.
    change (code "0"%char) with 48 in Hd. lia.
Qed.

(** ** [cprintf] *)

Lemma poke_middle done g tail c :
  poke (done ++ g :: tail) (Z.of_nat (length done)) c = done ++ c :: tail.
Proof.
  unfold poke. destruct (Z.ltb_spec (Z.of_nat (length done)) 0); [lia|].
  rewrite Nat2Z.id. clear H.
  induction done as [|d done IH]; simpl; [done|]. by rewrite IH.
Qed.

(** The inner loop fills a gap of [k] bytes, from its right end, with the
    last [k] digits of [n]. *)
Lemma cprintf_digits_spec gap : forall done written tail n,
  0 <= n ->
  cprintf_digits (length gap) (done ++ gap ++ written ++ tail)
    (Z.of_nat (length done + length gap + length written))
    (Z.of_nat (length written)) n
  = (done ++ fixed_digits (length gap) n ++ written ++ tail,
     n / 10 ^ Z.of_nat (length gap)).
Proof.
  induction gap as [|g gap IH] using rev_ind; intros done written tail n Hn.
  - simpl. by rewrite Z.div_1_r.
  - rewrite length_app. simpl length. rewrite Nat.add_1_r.
    cbn [cprintf_digits fixed_digits].
    replace (Z.of_nat (length done + S (length gap) + length written)
             - (Z.of_nat (length written) + 1))
      with (Z.of_nat (length (done ++ gap))) by (rewrite length_app; lia).
    replace (done ++ (gap ++ [g]) ++ written ++ tail)
      with ((done ++ gap) ++ g :: (written ++ tail))
      by (by rewrite <- !app_assoc).
    rewrite poke_middle, <- app_assoc.
    rewrite Z.rem_mod_nonneg, Z.quot_div_nonneg by lia.
    specialize (IH done (digit_char (n mod 10) :: written) tail (n / 10)
                  ltac:(apply Z.div_pos; lia)).
    simpl length in IH.
    replace (Z.of_nat (length done + S (length gap) + length written))
      with (Z.of_nat (length done + length gap + S (length written))) by lia.
    replace (Z.of_nat (length written) + 1)
      with (Z.of_nat (S (length written))) by lia.
    unfold digit_char in IH at 1. simpl app in IH. rewrite IH.
    rewrite Nat2Z.inj_succ, Z.pow_succ_r by lia.
    rewrite Z.div_div by (try apply Z.pow_pos_nonneg; lia).
    by rewrite <- !app_assoc.
Qed.

(** The outer loop copies a run of plain characters. *)
Lemma cprintf_loop_text pre : forall rest done tail len n,
  Forall plain_char pre ->
  (length pre <= length tail)%nat ->
  cprintf_loop (pre ++ rest) (done ++ tail) (Z.of_nat (length done)) len n
  = cprintf_loop rest ((done ++ pre) ++ drop (length pre) tail)
      (Z.of_nat (length (done ++ pre))) len n.
Proof.
  induction pre as [|c pre IH]; intros rest done tail len n Hplain Hlen.
  - simpl. by rewrite !app_nil_r.
  - apply Forall_cons in Hplain as [[Hnul Hpct] Hplain].
    destruct tail as [|t tail]; [simpl in Hlen; lia|].
    simpl in Hlen. cbn [app cprintf_loop].
    destruct (Ascii.eqb_spec c NUL); [done|].
    destruct (Ascii.eqb_spec c "%"%char); [done|].
    rewrite poke_middle.
    replace (done ++ c :: tail) with ((done ++ [c]) ++ tail)
      by (by rewrite <- app_assoc).
    replace (Z.of_nat (length done) + 1)
      with (Z.of_nat (length (done ++ [c])))
      by (rewrite length_app; simpl; lia).
    rewrite IH by (done || lia).
    simpl drop. by rewrite <- !app_assoc.
Qed.

(** The effect of [cprintf] on a mask with one ['%']. *)
Lemma cprintf_replaces_percent (dest pre post : list ascii) (n : Z) :
  Forall plain_char pre ->
  Forall plain_char post ->
  0 <= n <= 999999 ->
  (length (pre ++ decimal n ++ post) <= length dest)%nat ->
  cprintf dest (pre ++ "%"%char :: post) n
  = (pre ++ decimal n ++ post
       ++ drop (length (pre ++ decimal n ++ post)) dest,
     Z.of_nat (length (pre ++ decimal n ++ post))).
Proof.
  intros Hpre Hpost Hn Hlen.
  rewrite decimal_cprintf_len in * by done.
  assert (Hk : 1 <= cprintf_len n <= 6)
    by (unfold cprintf_len; repeat case_match; lia).
  set (k := Z.to_nat (cprintf_len n)) in *.
  rewrite !length_app, length_fixed_digits in *.
  unfold cprintf.
  rewrite (cprintf_loop_text pre _ [] dest) by (done || lia).
  simpl app. cbn [cprintf_loop].
  destruct (Ascii.eqb_spec "%"%char NUL) as [Hbad|_]; [discriminate Hbad|].
  destruct (Ascii.eqb_spec "%"%char "%"%char) as [_|Hbad]; [|done].
  set (room := drop (length pre) dest).
  assert (Hroom : length room = (length dest - length pre)%nat)
    by (unfold room; by rewrite length_drop).
  rewrite <- (take_drop k room).
  assert (Hgap : length (take k room) = k) by (rewrite length_take; lia).
  pose proof (cprintf_digits_spec (take k room) pre [] (drop k room) n
                ltac:(lia)) as Hdigits.
  rewrite Hgap in Hdigits. simpl in Hdigits.
  replace (Z.of_nat (length pre) + cprintf_len n)
    with (Z.of_nat (length pre + k + 0)) by lia.
  change (Z.of_nat 0) with 0 in Hdigits.
  change (Z.to_nat (cprintf_len n)) with k. rewrite Hdigits.
  replace (Z.of_nat (length pre + k + 0))
    with (Z.of_nat (length (pre ++ fixed_digits k n)))
    by (rewrite length_app, length_fixed_digits; lia).
  rewrite (app_assoc pre).
  rewrite <- (app_nil_r post) at 1.
  rewrite cprintf_loop_text; [|done|rewrite length_drop; lia].
  simpl. f_equal.
  - rewrite <- !app_assoc. do 3 f_equal.
    unfold room. rewrite !drop_drop. f_equal; lia.
  - f_equal. rewrite !length_app, length_fixed_digits. lia.
Qed.

(** C9.  With a destination large enough, a mask with exactly one ['%'] and
    [0 <= n <= 999999], [cprintf] leaves in the destination the mask with the
    ['%'] replaced by the decimal notation of [n] and returns the number of
    bytes written; the notation denotes [n], is made of digits, is the single
    digit 0 for zero and has no leading zero otherwise. *)
Theorem cprintf_one_percent (dest pre post : list ascii) (n : Z) :
  Forall plain_char pre ->
  Forall plain_char post ->
  0 <= n <= 999999 ->
  (length (pre ++ decimal n ++ post) <= length dest)%nat ->
  cprintf dest (pre ++ "%"%char :: post) n
  = (pre ++ decimal n ++ post
       ++ drop (length (pre ++ decimal n ++ post)) dest,
     Z.of_nat (length (pre ++ decimal n ++ post)))
  /\ digits_value (decimal n) = n
  /\ Forall is_digit (decimal n)
  /\ (n = 0 -> decimal n = ["0"%char])
  /\ (0 < n -> head (decimal n) <> Some "0"%char).
Proof.
  intros Hpre Hpost Hn Hlen.
  split; [by apply cprintf_replaces_percent|by apply decimal_properties].
Qed.

Lemma cprintf_one_percent_witness :
  cprintf (replicate 16 "x"%char) (lit " ord.%" ++ [LF]) 42
  = (lit " ord.42" ++ [LF] ++ replicate 8 "x"%char, 8)
  /\ cprintf (replicate 4 NUL) (lit "#%") 0 = (lit "#0" ++ [NUL; NUL], 2).
Proof.
  split.
  - refine (proj1 (cprintf_one_percent (replicate 16 "x"%char) (lit " ord.")
                     [LF] 42 _ _ _ _)).
    + repeat constructor; discriminate.
    + repeat constructor; discriminate.
    + lia.
    + vm_compute. lia.
  - refine (proj1 (cprintf_one_percent (replicate 4 NUL) (lit "#") [] 0
                     _ _ _ _)).
    + repeat constructor; discriminate.
    + constructor.
    + lia.
    + vm_compute. lia.
Defined.

(** ** The two [parse_pe] *)

Lemma le_decode_bound bs :
  0 <= le_decode bs < 256 ^ Z.of_nat (length bs).
Proof.
  induction bs as [|b bs IH]; [simpl; lia|].
  cbn [le_decode foldr length]. fold (le_decode bs).
  rewrite Nat2Z.inj_succ, Z.pow_succ_r by lia.
  assert (0 <= code b < 256).
  { unfold code. pose proof (N_ascii_bounded b). lia. }
  lia.
Qed.

Lemma length_le_encode k z : length (le_encode k z) = k.
Proof. revert z. induction k as [|k IH]; intros z; simpl; [done|]. by rewrite IH. Qed.

Lemma length_store buf data :
  (length data <= length buf)%nat -> length (store buf data) = length buf.
Proof. intros H. unfold store. rewrite length_app, length_drop. lia. Qed.

Lemma length_poke buf idx c : length (poke buf idx c) = length buf.
Proof. unfold poke. case_match; [done|]. apply length_insert. Qed.

Lemma length_read n s : (length (ifstream_read n s).1 <= Z.to_nat n)%nat.
Proof.
  unfold ifstream_read. case_match; simpl; [lia|].
  rewrite length_take. lia.
Qed.

Lemma u16_at_bound buf off : 0 <= u16_at buf off < 65536.
Proof.
  unfold u16_at, bytes_at.
  pose proof (le_decode_bound (take 2 (drop (Z.to_nat off) buf))) as H.
  assert (Hlen : (length (take 2 (drop (Z.to_nat off) buf)) <= 2)%nat)
    by (rewrite length_take; lia).
  assert (256 ^ Z.of_nat (length (take 2 (drop (Z.to_nat off) buf))) <= 256 ^ 2)
    by (apply Z.pow_le_mono_r; lia).
  lia.
Qed.

Lemma read_scalar_bound k v st :
  exists z st', read_scalar k v st = Next z st'
                /\ 0 <= z < 256 ^ Z.of_nat k.
Proof.
  unfold read_scalar.
  pose proof (length_read (Z.of_nat k) (hFile st)) as Hlen.
  destruct (ifstream_read (Z.of_nat k) (hFile st)) as [data s]. simpl in Hlen.
  eexists _, _. split; [done|].
  pose proof (le_decode_bound (store (le_encode k v) data)) as H.
  rewrite length_store, length_le_encode in H
    by (rewrite length_le_encode; lia).
  done.
Qed.

(** What [read_symbol] guarantees when the round goes on. *)
Lemma read_symbol_inv t c st c' st' :
  length (pub_name c) = 80%nat ->
  Dll2def.read_symbol t c st = Next c' st' ->
  length (pub_name c') = 80%nat /\ 0 <= ordinal c' < 65536.
Proof.
  intros Hlen.
  unfold Dll2def.read_symbol, mbind, PE_bind, pe_bind, mret, PE_ret, pe_ret.
  cbn [seekg_beg].
  destruct (read_scalar_bound 4 (i c)
              {| hFile := ifstream_seekg (psymbols_array c) (hFile st);
                 hOut := hOut st |}) as (iv & st1 & -> & _).
  set (name0 := poke (pub_name c) 0 NUL).
  assert (Hname0 : length name0 = 80%nat) by (unfold name0; by rewrite length_poke).
  assert (Hfinish : forall name1 st2,
    length name1 = 80%nat ->
    match read_scalar 2 (ordinal c)
            {| hFile := ifstream_seekg (ordinals_array c) (hFile st2);
               hOut := hOut st2 |} with
    | Return rc st3 => Return rc st3
    | Next a st3 =>
        Next {| psymbols_array := u32 (psymbols_array c + 4);
                ordinals_array := u32 (ordinals_array c + 2);
                i := iv; ordinal := a; pub_name := name1 |} st3
    end = Next c' st' ->
    length (pub_name c') = 80%nat /\ 0 <= ordinal c' < 65536).
  { intros name1 st2 Hname1.
    destruct (read_scalar_bound 2 (ordinal c)
                {| hFile := ifstream_seekg (ordinals_array c) (hFile st2);
                   hOut := hOut st2 |}) as (ov & st3 & -> & Hov).
    intros [= <- <-]. simpl. split; [done|]. simpl in Hov. lia. }
  destruct (negb (iv =? 0)); [|by apply Hfinish].
  unfold return_if.
  destruct (do_RVA_2_FileOffset (et_sections t) iv =? 0); [done|].
  unfold read_into. cbn [hFile hOut].
  pose proof (length_read (80 - 3)
                (ifstream_seekg (do_RVA_2_FileOffset (et_sections t) iv)
                                (hFile st1))) as Hdata.
  destruct (ifstream_read (80 - 3) _) as [data s]. simpl in Hdata.
  apply Hfinish. rewrite length_poke, length_store; [done|lia].
Qed.

Lemma put_implib_eq filename pub_name pub_name_len st :
  Dll2def.put_implib filename pub_name pub_name_len st
  = Next (poke pub_name pub_name_len LF)
      {| hFile := hFile st;
         hOut := hOut st ++ lit "implib " ++ lit filename ++ lit ", "
                 ++ take (Z.to_nat (u32 (pub_name_len + 1)))
                      (poke pub_name pub_name_len LF) |}.
Proof.
  unfold Dll2def.put_implib, mbind, PE_bind, pe_bind, put, mret, PE_ret, pe_ret.
  change (negb (MOD_NO =? MOD_NO)) with false. cbn [hFile hOut].
  by rewrite <- !app_assoc.
Qed.

Lemma length_decimal n : 0 <= n <= 999999 -> (1 <= length (decimal n) <= 6)%nat.
Proof.
  intros Hn. rewrite decimal_cprintf_len, length_fixed_digits by done.
  unfold cprintf_len. repeat case_match; lia.
Qed.

(** The text both files put in [pub_name] for a symbol without a name leaves
    the same buffer once the line feed is stored after it. *)
Lemma ord_fallback_agree pub_name n :
  length pub_name = 80%nat ->
  0 <= n <= 131070 ->
  let ss := lit "ord." ++ decimal n in
  let '(buf, r) := cprintf pub_name (lit "ord.%") (int_of_u32 n) in
  u32 r = Z.of_nat (length ss)
  /\ poke buf (u32 r) LF
     = poke (Dumpsyms.strcpy pub_name ss) (Z.of_nat (length ss)) LF.
Proof.
  intros Hlen Hn ss.
  assert (Hint : int_of_u32 n = n) by (unfold int_of_u32; case_match; lia).
  pose proof (length_decimal n ltac:(lia)) as Hdec.
  assert (Hss : length ss = (4 + length (decimal n))%nat) by done.
  assert (Hc := cprintf_replaces_percent pub_name (lit "ord.") [] n).
  assert (Hplain : Forall plain_char (lit "ord."))
    by (repeat constructor; done).
  assert (Hroom : (length (lit "ord." ++ decimal n ++ []) <= length pub_name)%nat)
    by (rewrite app_nil_r; fold ss; lia).
  specialize (Hc Hplain ltac:(constructor) ltac:(lia) Hroom).
  rewrite app_nil_r, app_nil_l, (app_assoc (lit "ord.")) in Hc. fold ss in Hc.
  rewrite Hint. change (lit "ord.%") with (lit "ord." ++ ["%"%char]).
  rewrite Hc.
  assert (Hu : u32 (Z.of_nat (length ss)) = Z.of_nat (length ss))
    by (unfold u32; apply Z.mod_small; lia).
  split; [done|]. rewrite Hu.
  unfold Dumpsyms.strcpy, store. rewrite length_app.
  change (length [NUL]) with 1%nat.
  destruct (drop (length ss) pub_name) as [|g rest] eqn:Hdrop.
  { apply (f_equal length) in Hdrop. rewrite length_drop in Hdrop.
    simpl in Hdrop. lia. }
  assert (Hrest : drop (length ss + 1) pub_name = rest).
  { by rewrite <- drop_drop, Hdrop. }
  rewrite Hrest, <- app_assoc. change ([NUL] ++ rest) with (NUL :: rest).
  by rewrite !poke_middle.
Qed.

(** Outside the text for a symbol without a name the two files have the same
    statements, and so the same embedding. *)
Lemma read_symbol_same : Dumpsyms.read_symbol = Dll2def.read_symbol.
Proof. reflexivity. Qed.

Lemma put_implib_same : Dumpsyms.put_implib = Dll2def.put_implib.
Proof. reflexivity. Qed.

Lemma pe_headers_same : Dumpsyms.pe_headers = Dll2def.pe_headers.
Proof. reflexivity. Qed.

Lemma export_loop_agree filename t :
  0 <= et_ordinal_base t < 65536 ->
  forall num_sections c st,
    length (pub_name c) = 80%nat ->
    Dll2def.export_loop filename t num_sections c st
    = Dumpsyms.export_loop filename t num_sections c st.
Proof.
  intros Hbase. induction num_sections as [|k IH]; intros c st Hlen; [done|].
  cbn [Dll2def.export_loop Dumpsyms.export_loop].
  rewrite read_symbol_same, put_implib_same.
  unfold mbind, PE_bind, pe_bind.
  destruct (Dll2def.read_symbol t c st) as [rc st1|c1 st1] eqn:Hread; [done|].
  apply read_symbol_inv in Hread as [Hlen1 Hord]; [|done].
  destruct (strlen (pub_name c1) =? 0).
  - assert (Hn : 0 <= u32 (ordinal c1 + et_ordinal_base t) <= 131070).
    { unfold u32. rewrite Z.mod_small; lia. }
    pose proof (ord_fallback_agree (pub_name c1) _ Hlen1 Hn) as Hagree.
    cbv zeta in Hagree.
    destruct (cprintf (pub_name c1) (lit "ord.%")
                (int_of_u32 (u32 (ordinal c1 + et_ordinal_base t))))
      as [buf r].
    destruct Hagree as [Hr Hbuf].
    rewrite !put_implib_eq, Hbuf, Hr.
    apply IH. cbn [pub_name set_pub_name]. rewrite length_poke.
    unfold Dumpsyms.strcpy. rewrite length_store; [done|].
    rewrite !length_app. change (length (lit "ord.")) with 4%nat.
    change (length [NUL]) with 1%nat.
    pose proof (length_decimal (u32 (ordinal c1 + et_ordinal_base t))
                  ltac:(lia)).
    lia.
  - rewrite !put_implib_eq. apply IH. cbn [pub_name set_pub_name].
    by rewrite length_poke.
Qed.

Lemma pe_bind_Next {A B} (m : PE A) (k : A -> PE B) st b st' :
  (m ≫= k) st = Next b st' ->
  exists a st1, m st = Next a st1 /\ k a st1 = Next b st'.
Proof.
  unfold mbind, PE_bind, pe_bind. destruct (m st) as [rc st1|a st1]; [done|].
  intros H. by exists a, st1.
Qed.

Ltac bind_inv H :=
  let a := fresh "a" in
  let s := fresh "s" in
  apply pe_bind_Next in H as (a & s & _ & H);
  cbv beta zeta in H; try destruct a.

(** The ordinal base [pe_headers] hands to the loop is a [uint16_t]. *)
Lemma pe_headers_base st t st' :
  Dll2def.pe_headers st = Next t st' -> 0 <= et_ordinal_base t < 65536.
Proof.
  unfold Dll2def.pe_headers. intros H.
  repeat bind_inv H.
  all: destruct (_ <? 40) in H; repeat bind_inv H.
  all: injection H as <- _; apply u16_at_bound.
Qed.


(** ** The builder *)

Lemma sec_build_new what h o :
  sec_build what (length h) (h ++ [o])
  = h ++ [ {| coff_arch := coff_arch o; coff_built := coff_built o ++ [what] |} ].
Proof.
  unfold sec_build. induction h as [|x h IH]; simpl; [done|].
  f_equal. apply IH.
Qed.

Lemma handles_valid_app h extra calls :
  handles_valid h calls -> handles_valid (h ++ extra) calls.
Proof.
  unfold handles_valid. intros H. eapply Forall_impl; [exact H|].
  intros [name obj|]; [|done]. rewrite length_app. lia.
Qed.

(** Objects allocated later do not change what the emitter sees. *)
Lemma lib_view_app h extra calls :
  handles_valid h calls -> lib_view (h ++ extra) calls = lib_view h calls.
Proof.
  unfold lib_view. induction 1 as [|c calls Hc _ IH]; [done|].
  cbn [fmap list_fmap]. f_equal; [|apply IH].
  destruct c as [name obj|]; [|done]. simpl. f_equal.
  by apply lookup_app_l.
Qed.

Lemma create_build_add what h b :
  (let '(r, h1, b1) := CreateObject h b in
   (sec_build what r h1, lib_call (AddObject (m_memName b1) r) b1))
  = push_member what (h, b).
Proof.
  unfold CreateObject, CreateCoffBuilder, push_member, lib_call. cbv zeta.
  by rewrite sec_build_new.
Qed.

Lemma AddImportFunctionByName_push imp func exp h b :
  AddImportFunctionByName imp func exp h b
  = push_member (ImportByNameThunk (m_dllName b) imp func exp) (h, b).
Proof. rewrite <- create_build_add. reflexivity. Qed.

Lemma AddImportFunctionByOrdinal_push imp func n h b :
  AddImportFunctionByOrdinal imp func n h b
  = push_member (ImportByOrdinalThunk (m_dllName b) imp func n) (h, b).
Proof. rewrite <- create_build_add. reflexivity. Qed.

Lemma AddImportFunctionByNameWithHint_push imp func name n h b :
  AddImportFunctionByNameWithHint imp func name n h b
  = push_member (ImportThunk (m_dllName b) imp func name n) (h, b).
Proof. rewrite <- create_build_add. reflexivity. Qed.

Lemma add_import_push a st :
  add_import a st = push_member (thunk_of (m_dllName st.2) a) st.
Proof.
  destruct st as [h b], a; cbn [add_import thunk_of fst snd].
  - apply AddImportFunctionByName_push.
  - apply AddImportFunctionByOrdinal_push.
  - apply AddImportFunctionByNameWithHint_push.
Qed.

Lemma Build_push h b :
  Build h b
  = let st := push_member (NullThunk (m_dllName b)) (h, b) in
    (st.1, lib_call FillOffsets st.2).
Proof. rewrite <- create_build_add. reflexivity. Qed.

Lemma new_push a szDllName szMemName h :
  new_CImportLibraryBuilder a szDllName szMemName h
  = push_member NullDescriptor
      (push_member (ImportDescriptor szDllName)
         (h, {| m_arch := a; m_libBuilder := CreateLibraryBuilder;
                m_dllName := szDllName; m_memName := szMemName;
                m_todispose := [] |})).
Proof.
  unfold new_CImportLibraryBuilder, CreateObject, CreateCoffBuilder,
    push_member, lib_call.
  cbv zeta. cbn [fst snd m_arch m_libBuilder m_dllName m_memName m_todispose].
  by rewrite !sec_build_new.
Qed.

Lemma push_member_view what st :
  handles_valid st.1 (m_libBuilder st.2) ->
  handles_valid (push_member what st).1 (m_libBuilder (push_member what st).2)
  /\ lib_view (push_member what st).1 (m_libBuilder (push_member what st).2)
     = lib_view st.1 (m_libBuilder st.2)
       ++ [member_of (m_arch st.2) (m_memName st.2) what].
Proof.
  intros Hvalid. destruct st as [h b]. unfold push_member.
  cbn [fst snd m_libBuilder m_arch m_memName] in *. split.
  - apply Forall_app. split; [by apply handles_valid_app|].
    constructor; [|constructor]. rewrite length_app. simpl. lia.
  - unfold lib_view. rewrite fmap_app.
    change (view_call ?x <$> m_libBuilder b) with (lib_view x (m_libBuilder b)).
    rewrite lib_view_app by done. f_equal. cbn. unfold member_of. do 2 f_equal.
    by rewrite list_lookup_middle.
Qed.

(** Every call extends the heap, keeps the names, and shows the emitter what
    [call_views] says. *)
Lemma call_spec c st :
  handles_valid st.1 (m_libBuilder st.2) ->
  (exists extra, (call c st).1 = st.1 ++ extra)
  /\ m_arch (call c st).2 = m_arch st.2
  /\ m_dllName (call c st).2 = m_dllName st.2
  /\ m_memName (call c st).2 = m_memName st.2
  /\ handles_valid (call c st).1 (m_libBuilder (call c st).2)
  /\ lib_view (call c st).1 (m_libBuilder (call c st).2)
     = lib_view st.1 (m_libBuilder st.2)
       ++ call_views (m_arch st.2) (m_dllName st.2) (m_memName st.2) c.
Proof.
  intros Hvalid. destruct c as [a|]; cbn [call call_views].
  - rewrite add_import_push.
    destruct (push_member_view (thunk_of (m_dllName st.2) a) st Hvalid)
      as [Hvalid' Hview].
    repeat split; try done. by eexists.
  - rewrite Build_push. cbv zeta. rewrite <- surjective_pairing.
    destruct (push_member_view (NullThunk (m_dllName st.2)) st Hvalid)
      as [Hvalid' Hview].
    cbn [fst snd lib_call m_arch m_dllName m_memName m_libBuilder].
    repeat split; try done.
    + by eexists.
    + apply Forall_app. split; [done|]. by repeat constructor.
    + unfold lib_view in *. rewrite fmap_app, Hview, <- app_assoc. done.
Qed.

Lemma new_spec a szDllName szMemName h :
  let st := new_CImportLibraryBuilder a szDllName szMemName h in
  (exists extra, st.1 = h ++ extra)
  /\ m_arch st.2 = a /\ m_dllName st.2 = szDllName /\ m_memName st.2 = szMemName
  /\ handles_valid st.1 (m_libBuilder st.2)
  /\ lib_view st.1 (m_libBuilder st.2)
     = [member_of a szMemName (ImportDescriptor szDllName);
        member_of a szMemName NullDescriptor].
Proof.
  cbv zeta. rewrite new_push.
  set (st0 := (h, {| m_arch := a; m_libBuilder := CreateLibraryBuilder;
                     m_dllName := szDllName; m_memName := szMemName;
                     m_todispose := [] |})).
  assert (Hvalid0 : handles_valid st0.1 (m_libBuilder st0.2)) by constructor.
  destruct (push_member_view (ImportDescriptor szDllName) st0 Hvalid0)
    as [Hvalid1 Hview1].
  destruct (push_member_view NullDescriptor _ Hvalid1) as [Hvalid2 Hview2].
  repeat split; try done.
  - eexists. cbn [push_member fst snd]. by rewrite <- app_assoc.
  - by rewrite Hview2, Hview1.
Qed.

Lemma add_imports_spec adds : forall st,
  handles_valid st.1 (m_libBuilder st.2) ->
  m_arch (add_imports adds st).2 = m_arch st.2
  /\ m_dllName (add_imports adds st).2 = m_dllName st.2
  /\ m_memName (add_imports adds st).2 = m_memName st.2
  /\ handles_valid (add_imports adds st).1 (m_libBuilder (add_imports adds st).2)
  /\ lib_view (add_imports adds st).1 (m_libBuilder (add_imports adds st).2)
     = lib_view st.1 (m_libBuilder st.2)
       ++ ((fun i => member_of (m_arch st.2) (m_memName st.2)
                       (thunk_of (m_dllName st.2) i)) <$> adds).
Proof.
  induction adds as [|i adds IH]; intros st Hvalid.
  - cbn. by rewrite app_nil_r.
  - cbn [add_imports foldl]. fold (add_imports adds (add_import i st)).
    destruct (call_spec (Add i) st Hvalid)
      as (_ & Harch & Hdll & Hmem & Hvalid' & Hview).
    cbn [call call_views] in *.
    destruct (IH _ Hvalid') as (Harch' & Hdll' & Hmem' & Hvalid'' & Hview').
    rewrite Harch', Hdll', Hmem', Hview', Hview, Harch, Hdll, Hmem.
    repeat split; try done. by rewrite <- app_assoc.
Qed.

(** What the emitter of a finished run has in hand, whatever the heap the
    run started in. *)
Lemma run_builder_view h a szDllName szMemName adds :
  let st := run_builder h a szDllName szMemName adds in
  lib_view st.1 (m_libBuilder st.2)
  = [member_of a szMemName (ImportDescriptor szDllName);
     member_of a szMemName NullDescriptor]
    ++ ((fun i => member_of a szMemName (thunk_of szDllName i)) <$> adds)
    ++ [member_of a szMemName (NullThunk szDllName); FilledOffsets].
Proof.
  cbv zeta. unfold run_builder.
  destruct (new_spec a szDllName szMemName h)
    as (_ & Harch & Hdll & Hmem & Hvalid & Hview).
  set (st0 := new_CImportLibraryBuilder a szDllName szMemName h) in *.
  destruct (add_imports_spec adds st0 Hvalid)
    as (Harch' & Hdll' & Hmem' & Hvalid' & Hview').
  set (st1 := add_imports adds st0) in *.
  destruct (call_spec CallBuild st1 Hvalid') as (_ & _ & _ & _ & _ & Hview'').
  cbn [call call_views] in Hview''.
  rewrite Hview'', Hview', Hview, Harch', Hdll', Hmem', Harch, Hdll, Hmem.
  by rewrite <- !app_assoc.
Qed.

Lemma filter_is_member_thunks a szMemName szDllName (adds : list AddImport) :
  List.filter is_member
    ((fun i => member_of a szMemName (thunk_of szDllName i)) <$> adds)
  = (fun i => member_of a szMemName (thunk_of szDllName i)) <$> adds.
Proof. induction adds as [|i adds IH]; [done|]. cbn. by rewrite IH. Qed.

(** C1.  A run of a builder with n add-import calls followed by [Build()]
    hands the archive emitter exactly n+3 members, all under the member name
    given at construction, in the order: import descriptor, null descriptor,
    the n thunk members in call order, null thunk; with no add-import call the
    members are three. *)
Theorem run_builder_members (h : list CoffObject) (a : Arch)
    (szDllName szMemName : string) (adds : list AddImport) :
  let st := run_builder h a szDllName szMemName adds in
  List.filter is_member (lib_view st.1 (m_libBuilder st.2))
  = [member_of a szMemName (ImportDescriptor szDllName);
     member_of a szMemName NullDescriptor]
    ++ ((fun i => member_of a szMemName (thunk_of szDllName i)) <$> adds)
    ++ [member_of a szMemName (NullThunk szDllName)]
  /\ length (List.filter is_member (lib_view st.1 (m_libBuilder st.2)))
     = (length adds + 3)%nat
  /\ (let st0 := run_builder h a szDllName szMemName [] in
      List.filter is_member (lib_view st0.1 (m_libBuilder st0.2))
      = [member_of a szMemName (ImportDescriptor szDllName);
         member_of a szMemName NullDescriptor;
         member_of a szMemName (NullThunk szDllName)]).
Proof.
  cbv zeta. rewrite run_builder_view.
  assert (Hfilter :
    List.filter is_member
      ([member_of a szMemName (ImportDescriptor szDllName);
        member_of a szMemName NullDescriptor]
       ++ ((fun i => member_of a szMemName (thunk_of szDllName i)) <$> adds)
       ++ [member_of a szMemName (NullThunk szDllName); FilledOffsets])
    = [member_of a szMemName (ImportDescriptor szDllName);
       member_of a szMemName NullDescriptor]
      ++ ((fun i => member_of a szMemName (thunk_of szDllName i)) <$> adds)
      ++ [member_of a szMemName (NullThunk szDllName)]).
  { rewrite !List.filter_app, filter_is_member_thunks. done. }
  rewrite Hfilter. split; [done|]. split.
  - rewrite !length_app, length_fmap. simpl. lia.
  - by rewrite run_builder_view.
Qed.

Lemma count_fill_view h calls :
  length (List.filter is_fill calls)
  = length (List.filter (fun v => negb (is_member v)) (lib_view h calls)).
Proof.
  induction calls as [|c calls IH]; [done|].
  destruct c; cbn; [done|]. by rewrite IH.
Qed.

(** C2.  [Build()] appends the null-thunk member to the archive and then
    calls [FillOffsets]; in a run, [FillOffsets] is called once, after every
    member, the null thunk last among them. *)
Theorem Build_fills_offsets_last :
  (forall h b,
      m_libBuilder (Build h b).2
      = m_libBuilder b ++ [AddObject (m_memName b) (length h); FillOffsets]
      /\ (Build h b).1 !! length h
         = Some {| coff_arch := m_arch b;
                   coff_built := [NullThunk (m_dllName b)] |})
  /\ (forall h a szDllName szMemName adds,
      let st := run_builder h a szDllName szMemName adds in
      exists members,
        lib_view st.1 (m_libBuilder st.2)
        = members ++ [member_of a szMemName (NullThunk szDllName);
                      FilledOffsets]
        /\ Forall (fun v => is_member v = true) members
        /\ length members = (length adds + 2)%nat
        /\ length (List.filter is_fill (m_libBuilder st.2)) = 1%nat).
Proof.
  split.
  - intros h b. rewrite Build_push. cbv zeta.
    cbn [push_member lib_call fst snd m_libBuilder m_memName m_arch].
    split; [by rewrite <- app_assoc|]. by rewrite list_lookup_middle.
  - intros h a szDllName szMemName adds. cbv zeta.
    exists ([member_of a szMemName (ImportDescriptor szDllName);
             member_of a szMemName NullDescriptor]
            ++ ((fun i => member_of a szMemName (thunk_of szDllName i)) <$> adds)).
    assert (Hmembers : Forall (fun v => is_member v = true)
              ((fun i => member_of a szMemName (thunk_of szDllName i)) <$> adds)).
    { apply Forall_fmap. by apply Forall_true. }
    split; [|split; [|split]].
    + by rewrite run_builder_view, <- app_assoc.
    + apply Forall_app. split; [by repeat constructor|done].
    + rewrite length_app, length_fmap. simpl. lia.
    + rewrite (count_fill_view (run_builder h a szDllName szMemName adds).1).
      rewrite run_builder_view, !List.filter_app.
      rewrite !length_app.
      assert (Hnone : List.filter (fun v => negb (is_member v))
                ((fun i => member_of a szMemName (thunk_of szDllName i)) <$> adds)
              = []).
      { clear. induction adds as [|i adds IH]; [done|]. cbn. apply IH. }
      rewrite Hnone. done.
Qed.

(** C6.  Two runs of a builder on the same DLL name, member name,
    architecture and add-import calls, each in its own heap, give the same
    [GetDataLength] and the same [GetRawData]. *)
Theorem run_builder_deterministic
    (lib_GetDataLength : list LibView -> Z)
    (lib_GetRawData : list LibView -> list ascii)
    (h1 h2 : list CoffObject) (a : Arch) (szDllName szMemName : string)
    (adds : list AddImport) :
  let st1 := run_builder h1 a szDllName szMemName adds in
  let st2 := run_builder h2 a szDllName szMemName adds in
  GetDataLength lib_GetDataLength st1.1 st1.2
  = GetDataLength lib_GetDataLength st2.1 st2.2
  /\ GetRawData lib_GetRawData st1.1 st1.2
     = GetRawData lib_GetRawData st2.1 st2.2.
Proof.
  cbv zeta. unfold GetDataLength, GetRawData.
  by rewrite !run_builder_view.
Qed.

(** ** Several builders *)

Lemma call_heap c st : exists extra, (call c st).1 = st.1 ++ extra.
Proof.
  destruct c as [a|]; cbn [call].
  - rewrite add_import_push. by eexists.
  - rewrite Build_push. cbv zeta. rewrite <- surjective_pairing. by eexists.
Qed.

Lemma same_builder_call c st st' :
  same_builder st st' -> same_builder (call c st) (call c st').
Proof.
  intros (Harch & Hdll & Hmem & Hview & Hvalid & Hvalid').
  destruct (call_spec c st Hvalid) as (_ & Ha & Hd & Hm & Hv & Hw).
  destruct (call_spec c st' Hvalid') as (_ & Ha' & Hd' & Hm' & Hv' & Hw').
  unfold same_builder.
  rewrite Ha, Ha', Hd, Hd', Hm, Hm', Hw, Hw', Harch, Hdll, Hmem, Hview.
  done.
Qed.

Lemma same_builder_new a szDllName szMemName h h' :
  same_builder (new_CImportLibraryBuilder a szDllName szMemName h)
               (new_CImportLibraryBuilder a szDllName szMemName h').
Proof.
  destruct (new_spec a szDllName szMemName h) as (_ & Ha & Hd & Hm & Hv & Hw).
  destruct (new_spec a szDllName szMemName h') as (_ & Ha' & Hd' & Hm' & Hv' & Hw').
  unfold same_builder. rewrite Ha, Ha', Hd, Hd', Hm, Hm', Hw, Hw'. done.
Qed.

(** Allocation by somebody else leaves a builder as it was. *)
Lemma same_builder_heap_ext h b extra st' :
  same_builder (h, b) st' -> same_builder (h ++ extra, b) st'.
Proof.
  intros (Harch & Hdll & Hmem & Hview & Hvalid & Hvalid').
  unfold same_builder. cbn [fst snd] in *.
  rewrite lib_view_app by done.
  repeat split; try done. by apply handles_valid_app.
Qed.

Lemma step_heap w e : exists extra, heap (step w e) = heap w ++ extra.
Proof.
  destruct e as [id a szDllName szMemName|id c]; cbn [step].
  - destruct (new_spec a szDllName szMemName (heap w)) as [[extra Hext] _].
    destruct (new_CImportLibraryBuilder a szDllName szMemName (heap w)).
    by exists extra.
  - destruct (instances w !! id) as [b|]; [|exists []; by rewrite app_nil_r].
    destruct (call_heap c (heap w, b)) as [extra Hext].
    destruct (call c (heap w, b)). by exists extra.
Qed.

Lemma step_other w e id :
  event_id e <> id -> instances (step w e) !! id = instances w !! id.
Proof.
  intros Hne. destruct e as [id' a szDllName szMemName|id' c]; cbn [step] in *.
  - destruct (new_CImportLibraryBuilder a szDllName szMemName (heap w)).
    by apply lookup_insert_ne.
  - destruct (instances w !! id') as [b|]; [|done].
    destruct (call c (heap w, b)). by apply lookup_insert_ne.
Qed.

Lemma step_same id e w w' :
  event_id e = id ->
  same_instance id w w' -> same_instance id (step w e) (step w' e).
Proof.
  intros <-. unfold same_instance.
  destruct e as [id a szDllName szMemName|id c]; cbn [step event_id].
  - intros _.
    pose proof (same_builder_new a szDllName szMemName (heap w) (heap w')) as H.
    destruct (new_CImportLibraryBuilder a szDllName szMemName (heap w)).
    destruct (new_CImportLibraryBuilder a szDllName szMemName (heap w')).
    cbn [heap instances]. by rewrite !lookup_insert_eq.
  - destruct (instances w !! id) as [b|] eqn:E,
             (instances w' !! id) as [b'|] eqn:E'; try done.
    + intros H. apply (same_builder_call c) in H.
      destruct (call c (heap w, b)), (call c (heap w', b')).
      cbn [heap instances]. by rewrite !lookup_insert_eq.
    + by rewrite E, E'.
Qed.

Lemma step_other_same id e w w' :
  event_id e <> id ->
  same_instance id w w' -> same_instance id (step w e) w'.
Proof.
  intros Hne. unfold same_instance. rewrite (step_other w e id Hne).
  destruct (step_heap w e) as [extra ->].
  destruct (instances w !! id) as [b|], (instances w' !! id) as [b'|];
    try done.
  apply same_builder_heap_ext.
Qed.

Lemma run_world_same id es : forall w w',
  same_instance id w w' ->
  same_instance id (run_world w es)
    (run_world w' (filter (fun e => event_id e = id) es)).
Proof.
  induction es as [|e es IH]; intros w w' Hsame; [done|].
  cbn [run_world foldl]. fold (run_world (step w e) es).
  destruct (decide (event_id e = id)) as [Heq|Hne].
  - rewrite filter_cons_True by done.
    cbn [run_world foldl]. fold (run_world (step w' e)).
    apply IH. by apply step_same.
  - rewrite filter_cons_False by done.
    apply IH. by apply step_other_same.
Qed.

(** C7.  Whatever the interleaving of the calls of several builder
    instances, the archive emitter of each instance has in hand what it has
    when only that instance's calls are made: the calls of the others do not
    reach it.  (The bytes of an archive are a function of what its emitter has
    in hand.) *)
Theorem builders_independent
    (lib_GetDataLength : list LibView -> Z)
    (lib_GetRawData : list LibView -> list ascii)
    (h0 : list CoffObject) (es : list Event) (id : nat) :
  let together := run_world (fresh_world h0) es in
  let alone :=
    run_world (fresh_world h0) (filter (fun e => event_id e = id) es) in
  archive_of together id = archive_of alone id
  /\ lib_GetDataLength <$> archive_of together id
     = lib_GetDataLength <$> archive_of alone id
  /\ lib_GetRawData <$> archive_of together id
     = lib_GetRawData <$> archive_of alone id.
Proof.
  cbv zeta.
  assert (Harchive :
    archive_of (run_world (fresh_world h0) es) id
    = archive_of (run_world (fresh_world h0)
                            (filter (fun e => event_id e = id) es)) id).
  { pose proof (run_world_same id es (fresh_world h0) (fresh_world h0)) as H.
    unfold same_instance in H at 1. cbn [fresh_world instances] in H.
    rewrite lookup_empty in H. specialize (H I).
    unfold archive_of, same_instance in *.
    destruct (instances (run_world (fresh_world h0) es) !! id) as [b|],
             (instances (run_world (fresh_world h0)
                          (filter (fun e => event_id e = id) es)) !! id)
               as [b'|]; try done.
    destruct H as (_ & _ & _ & Hview & _). cbn. f_equal. exact Hview. }
  by rewrite Harchive.
Qed.

(** ** The front end *)

Lemma add_symbol_import st symbol :
  add_symbol st symbol = add_import (import_of symbol) st.
Proof.
  unfold add_symbol, import_of.
  destruct (negb (String.eqb (name symbol) "")); reflexivity.
Qed.

Lemma foldl_add_symbol symbols : forall st,
  foldl add_symbol st symbols = add_imports (import_of <$> symbols) st.
Proof.
  induction symbols as [|symbol symbols IH]; intros st; [done|].
  cbn [foldl fmap list_fmap add_imports]. rewrite add_symbol_import.
  apply IH.
Qed.

(** With the files at hand, [main] writes the archive of a run of the
    builder: for the x64 builder when [arch] is 64, for the x86 builder
    otherwise. *)
Lemma main_runs_builder lib_GetDataLength lib_GetRawData j :
  main lib_GetDataLength lib_GetRawData 3 (files_ok j)
  = Library
      (written_bytes lib_GetDataLength lib_GetRawData
         (run_builder [] (if arch j =? 64 then ArchX64 else ArchX86)
            (dllname j) (dllname j) (import_of <$> symbols j))).
Proof.
  unfold main, written_bytes, run_builder. cbn [Z.eqb Pos.eqb files_ok input_file
    output_opens output_writes negb]. cbv zeta.
  rewrite foldl_add_symbol.
  unfold CreateX64ImpLibBuilder, CreateX86ImpLibBuilder.
  destruct (arch j =? 64); reflexivity.
Qed.

Lemma imports_same_but_cconv l1 l2 :
  Forall2 same_but_cconv l1 l2 -> import_of <$> l1 = import_of <$> l2.
Proof.
  induction 1 as [|s1 s2 l1 l2 (Hname & Hord & Hthunk & Hpub) _ IH]; [done|].
  cbn [fmap list_fmap]. f_equal; [|apply IH].
  unfold import_of. by rewrite Hname, Hord, Hthunk, Hpub.
Qed.

(** C8.  Two runs of [main] on inputs that differ only in the [cconv] fields
    of their symbols end alike and write the same bytes. *)
Theorem main_ignores_cconv
    (lib_GetDataLength : list LibView -> Z)
    (lib_GetRawData : list LibView -> list ascii)
    (argc : Z) (opens writes : bool) (j1 j2 : Input) :
  inputs_same_but_cconv j1 j2 ->
  main lib_GetDataLength lib_GetRawData argc
       {| input_file := Some j1; output_opens := opens;
          output_writes := writes |}
  = main lib_GetDataLength lib_GetRawData argc
         {| input_file := Some j2; output_opens := opens;
            output_writes := writes |}.
Proof.
  intros (Hdll & Harch & Hsymbols).
  apply imports_same_but_cconv in Hsymbols.
  unfold main. cbn [input_file output_opens output_writes]. cbv zeta.
  by rewrite !foldl_add_symbol, Hdll, Harch, Hsymbols.
Qed.

Lemma main_ignores_cconv_witness :
  inputs_same_but_cconv kernel32_stdcall kernel32_cdecl
  /\ main example_GetDataLength example_GetRawData 3 (files_ok kernel32_stdcall)
     = main example_GetDataLength example_GetRawData 3 (files_ok kernel32_cdecl).
Proof.
  assert (H : inputs_same_but_cconv kernel32_stdcall kernel32_cdecl).
  { split; [reflexivity|]. split; [reflexivity|].
    repeat constructor. }
  split; [exact H|].
  exact (main_ignores_cconv example_GetDataLength example_GetRawData 3
           true true kernel32_stdcall kernel32_cdecl H).
Defined.




(** ** Member names *)




(** ** Examples *)

Example run_builder_example :
  let st := run_builder [] ArchX64 "kernel32.dll" "kernel32.dll"
              [ByName "__imp_ExitProcess" (Some "ExitProcess") "ExitProcess"] in
  st.1 = [ {| coff_arch := ArchX64;
              coff_built := [ImportDescriptor "kernel32.dll"] |};
           {| coff_arch := ArchX64; coff_built := [NullDescriptor] |};
           {| coff_arch := ArchX64;
              coff_built := [ImportByNameThunk "kernel32.dll"
                               "__imp_ExitProcess" (Some "ExitProcess")
                               "ExitProcess"] |};
           {| coff_arch := ArchX64;
              coff_built := [NullThunk "kernel32.dll"] |} ]
  /\ m_libBuilder st.2
     = [AddObject "kernel32.dll" 0; AddObject "kernel32.dll" 1;
        AddObject "kernel32.dll" 2; AddObject "kernel32.dll" 3; FillOffsets]
  /\ m_todispose st.2 = [0; 1; 2; 3]%nat.
Proof. repeat split. Qed.

Example two_builders_example :
  let w := run_world (fresh_world [])
             [Create 1 ArchX86 "a.dll" "a.dll"; Create 2 ArchX64 "b.dll" "b.dll";
              Invoke 2 (Add (ByOrdinal "__imp_f" None 7));
              Invoke 1 (Add (ByName "__imp_f" (Some "f") "f"));
              Invoke 2 CallBuild; Invoke 1 CallBuild] in
  m_libBuilder <$> instances w !! 1%nat
  = Some [AddObject "a.dll" 0; AddObject "a.dll" 1; AddObject "a.dll" 5;
          AddObject "a.dll" 7; FillOffsets]
  /\ archive_of w 1
     = Some [member_of ArchX86 "a.dll" (ImportDescriptor "a.dll");
             member_of ArchX86 "a.dll" NullDescriptor;
             member_of ArchX86 "a.dll"
               (ImportByNameThunk "a.dll" "__imp_f" (Some "f") "f");
             member_of ArchX86 "a.dll" (NullThunk "a.dll");
             FilledOffsets].
Proof. split; vm_compute; reflexivity. Qed.

Example main_example :
  main example_GetDataLength example_GetRawData 3 (files_ok kernel32_arch16)
  = Library (lit "!<arch>" ++ [LF]
               ++ lit "kernel32.dll/" ++ [LF] ++ lit "kernel32.dll/" ++ [LF]
               ++ lit "kernel32.dll/" ++ [LF] ++ lit "kernel32.dll/" ++ [LF]
               ++ lit "kernel32.dll/" ++ [LF]).
Proof. vm_compute. reflexivity. Qed.

Example parse_pe_example :
  Dll2def.parse_pe "test.dll" (Some example_dll) example_junk
  = (ERR_OK,
     lit "include 'implib.inc'" ++ [LF; LF]
       ++ lit "implib test.dll, Foo" ++ [LF]
       ++ lit "implib test.dll, ord.6" ++ [LF]).
Proof. vm_compute. reflexivity. Qed.

Example parse_pe_truncated :
  Dumpsyms.parse_pe "test.dll" (Some (take 0x50 example_dll)) example_junk
  = (ERR_BAD_FORMAT, []).
Proof. vm_compute. reflexivity. Qed.

(** * More properties of the code *)

(** ** [cprintf] outside its intended use *)

(** One step of the outer loop at a ['%'], while [len] is still the number of
    digits to write. *)
Lemma cprintf_loop_percent rest done gap tail len n :
  0 <= n ->
  length gap = Z.to_nat len ->
  0 <= len ->
  cprintf_loop ("%"%char :: rest) (done ++ gap ++ tail)
    (Z.of_nat (length done)) len n
  = cprintf_loop rest ((done ++ fixed_digits (length gap) n) ++ tail)
      (Z.of_nat (length (done ++ fixed_digits (length gap) n)))
      (len_after_loop len) (n / 10 ^ Z.of_nat (length gap)).
Proof.
  intros Hn Hgap Hlen. cbn [cprintf_loop].
  destruct (Ascii.eqb_spec "%"%char NUL) as [Hbad|_]; [discriminate Hbad|].
  destruct (Ascii.eqb_spec "%"%char "%"%char) as [_|Hbad]; [|done].
  pose proof (cprintf_digits_spec gap done [] tail n Hn) as Hdigits.
  simpl in Hdigits. rewrite <- Hgap.
  replace (Z.of_nat (length done) + len)
    with (Z.of_nat (length done + length gap + 0)) by lia.
  change (Z.of_nat 0) with 0 in Hdigits. rewrite Hdigits.
  rewrite <- app_assoc. do 2 f_equal.
  rewrite length_app, length_fixed_digits. lia.
Qed.

(** The same step once [len] has been used up: nothing is written and the
    output pointer moves by [len]. *)
Lemma cprintf_loop_percent_spent rest buf outp len n :
  len <= 0 ->
  cprintf_loop ("%"%char :: rest) buf outp len n
  = cprintf_loop rest buf (outp + len) (len - 1) n.
Proof.
  intros Hlen. cbn [cprintf_loop].
  destruct (Ascii.eqb_spec "%"%char NUL) as [Hbad|_]; [discriminate Hbad|].
  destruct (Ascii.eqb_spec "%"%char "%"%char) as [_|Hbad]; [|done].
  replace (Z.to_nat len) with 0%nat by lia. cbn [cprintf_digits].
  unfold len_after_loop. destruct (Z.ltb_spec 0 len); [lia|done].
Qed.

Lemma cprintf_len_bounds n : 1 <= cprintf_len n <= 6.
Proof. unfold cprintf_len. repeat case_match; lia. Qed.

(** The buffer [cprintf] leaves for any [n >= 0]: as many low digits of [n]
    as [len] counts. *)
Lemma cprintf_fixed_digits (dest pre post : list ascii) (n : Z) :
  let k := Z.to_nat (cprintf_len n) in
  Forall plain_char pre ->
  Forall plain_char post ->
  0 <= n ->
  (length pre + k + length post <= length dest)%nat ->
  cprintf dest (pre ++ "%"%char :: post) n
  = (pre ++ fixed_digits k n ++ post
       ++ drop (length pre + k + length post) dest,
     Z.of_nat (length pre + k + length post)).
Proof.
  intros k Hpre Hpost Hn Hlen.
  pose proof (cprintf_len_bounds n) as Hk.
  unfold cprintf.
  rewrite (cprintf_loop_text pre _ [] dest) by (done || lia).
  rewrite app_nil_l.
  rewrite <- (take_drop k (drop (length pre) dest)).
  assert (Hgap : length (take k (drop (length pre) dest)) = k)
    by (rewrite length_take, length_drop; lia).
  rewrite cprintf_loop_percent by (rewrite ?Hgap; lia).
  rewrite !Hgap. rewrite <- (app_nil_r post) at 1.
  rewrite cprintf_loop_text; [|done|rewrite !length_drop; lia].
  cbn [cprintf_loop]. f_equal.
  - rewrite <- !app_assoc. do 3 f_equal. rewrite !drop_drop. f_equal; lia.
  - f_equal. rewrite !length_app, length_fixed_digits. lia.
Qed.

(** X1.  A mask without ['%'] is copied as it is, whatever [n]: [cprintf]
    returns its length, writes no terminator and leaves the rest of the
    destination alone. *)
Theorem cprintf_without_percent (dest mask : list ascii) (n : Z) :
  Forall plain_char mask ->
  (length mask <= length dest)%nat ->
  cprintf dest mask n
  = (mask ++ drop (length mask) dest, Z.of_nat (length mask)).
Proof.
  intros Hplain Hlen. unfold cprintf.
  rewrite <- (app_nil_r mask) at 1.
  by rewrite (cprintf_loop_text mask [] [] dest).
Qed.

Lemma cprintf_without_percent_witness :
  cprintf (replicate 8 "x"%char) (lit "ord.") 5
  = (lit "ord." ++ replicate 4 "x"%char, 4).
Proof.
  refine (cprintf_without_percent (replicate 8 "x"%char) (lit "ord.") 5 _ _).
  - repeat constructor; discriminate.
  - vm_compute. lia.
Defined.

(** X2.  A number above 999999 loses its leading digits: [cprintf] writes
    six digits, those of [n mod 1000000]. *)
Theorem cprintf_keeps_six_digits (dest pre post : list ascii) (n : Z) :
  Forall plain_char pre ->
  Forall plain_char post ->
  999999 < n ->
  (length pre + 6 + length post <= length dest)%nat ->
  cprintf dest (pre ++ "%"%char :: post) n
  = (pre ++ fixed_digits 6 n ++ post
       ++ drop (length pre + 6 + length post) dest,
     Z.of_nat (length pre + 6 + length post))
  /\ digits_value (fixed_digits 6 n) = n mod 1000000
  /\ digits_value (fixed_digits 6 n) <> n.
Proof.
  intros Hpre Hpost Hn Hlen.
  assert (Hk : cprintf_len n = 6).
  { unfold cprintf_len. repeat case_match; rewrite ?Z.leb_le in *; lia. }
  pose proof (cprintf_fixed_digits dest pre post n) as H.
  cbv zeta in H. rewrite Hk in H. change (Z.to_nat 6) with 6%nat in H.
  split; [apply H; (done || lia)|].
  assert (Hvalue : digits_value (fixed_digits 6 n) = n mod 1000000)
    by (rewrite digits_value_fixed by lia; done).
  split; [done|]. rewrite Hvalue.
  pose proof (Z.mod_pos_bound n 1000000 ltac:(lia)). lia.
Qed.

Lemma cprintf_keeps_six_digits_witness :
  cprintf (replicate 12 NUL) (lit "ord.%") 1234567
  = (lit "ord.234567" ++ [NUL; NUL], 10).
Proof.
  refine (proj1 (cprintf_keeps_six_digits (replicate 12 NUL) (lit "ord.") []
                   1234567 _ _ _ _)).
  - repeat constructor; discriminate.
  - constructor.
  - lia.
  - vm_compute. lia.
Defined.

(** X3.  For a negative [n], [cprintf] writes one character in place of the
    ['%'], the one [n % 10] below ['0']; it is a digit only when [n] is a
    multiple of ten. *)
Theorem cprintf_negative (dest pre post : list ascii) (n : Z) :
  Forall plain_char pre ->
  Forall plain_char post ->
  n < 0 ->
  (length pre + 1 + length post <= length dest)%nat ->
  let c := char_of_int (48 + Z.rem n 10) in
  cprintf dest (pre ++ "%"%char :: post) n
  = (pre ++ [c] ++ post ++ drop (length pre + 1 + length post) dest,
     Z.of_nat (length pre + 1 + length post))
  /\ code c = 48 + Z.rem n 10
  /\ (Z.rem n 10 <> 0 -> ~ is_digit c).
Proof.
  intros Hpre Hpost Hn Hlen c.
  assert (Hrem : -10 < Z.rem n 10 <= 0).
  { pose proof (Z.rem_bound_pos (- n) 10 ltac:(lia) ltac:(lia)) as H.
    rewrite Z.rem_opp_l in H by lia. lia. }
  assert (Hcode : code c = 48 + Z.rem n 10)
    by (unfold c; apply code_char_of_int; lia).
  split; [|split; [done|unfold is_digit; lia]].
  unfold cprintf.
  assert (Hk : cprintf_len n = 1).
  { unfold cprintf_len. destruct (Z.leb_spec n 9); [done|lia]. }
  rewrite Hk.
  rewrite (cprintf_loop_text pre _ [] dest) by (done || lia).
  rewrite app_nil_l. cbn [cprintf_loop].
  destruct (Ascii.eqb_spec "%"%char NUL) as [Hbad|_]; [discriminate Hbad|].
  destruct (Ascii.eqb_spec "%"%char "%"%char) as [_|Hbad]; [|done].
  change (Z.to_nat 1) with 1%nat. cbn [cprintf_digits].
  destruct (drop (length pre) dest) as [|g tail] eqn:Hdrop.
  { apply (f_equal length) in Hdrop. rewrite length_drop in Hdrop.
    simpl in Hdrop. lia. }
  replace (Z.of_nat (length pre) + 1 - (0 + 1))
    with (Z.of_nat (length pre)) by lia.
  rewrite poke_middle. fold c.
  replace (pre ++ c :: tail) with ((pre ++ [c]) ++ tail)
    by (by rewrite <- app_assoc).
  replace (Z.of_nat (length pre) + 1)
    with (Z.of_nat (length (pre ++ [c])))
    by (rewrite length_app; simpl; lia).
  assert (Htail : tail = drop (length pre + 1) dest)
    by (by rewrite <- drop_drop, Hdrop).
  assert (Hroom : (length post <= length tail)%nat)
    by (rewrite Htail, length_drop; lia).
  rewrite <- (app_nil_r post) at 1.
  rewrite cprintf_loop_text by done.
  cbn [cprintf_loop]. f_equal.
  - rewrite <- !app_assoc. do 3 f_equal. rewrite Htail, drop_drop.
    f_equal; lia.
  - f_equal. rewrite !length_app. simpl. lia.
Qed.

Lemma cprintf_negative_witness :
  cprintf (replicate 4 NUL) (lit "#%") (-15)
  = (lit "#+" ++ [NUL; NUL], 2)
  /\ ~ is_digit "+"%char.
Proof.
  destruct (cprintf_negative (replicate 4 NUL) (lit "#") [] (-15))
    as (Hrun & _ & Hdigit).
  - repeat constructor; discriminate.
  - constructor.
  - lia.
  - vm_compute. lia.
  - split; [exact Hrun|]. apply Hdigit. vm_compute. discriminate.
Defined.

(** X4.  [cprintf] has one place holder: a second ['%'] writes no number and
    moves the output pointer back, so the byte written just before it is
    overwritten by what follows and the length returned is one short. *)
Theorem cprintf_second_percent (dest pre mid post body : list ascii)
    (x : ascii) (n : Z) :
  Forall plain_char pre ->
  Forall plain_char mid ->
  Forall plain_char post ->
  0 <= n <= 999999 ->
  pre ++ decimal n ++ mid = body ++ [x] ->
  (length body + 1 + length post <= length dest)%nat ->
  cprintf dest (pre ++ "%"%char :: mid ++ "%"%char :: post) n
  = (body ++ post ++ drop (length post) (x :: drop (length body + 1) dest),
     Z.of_nat (length body + length post)).
Proof.
  intros Hpre Hmid Hpost Hn Hbody Hlen.
  pose proof (cprintf_len_bounds n) as Hk.
  set (k := Z.to_nat (cprintf_len n)).
  assert (Hdec : decimal n = fixed_digits k n)
    by (by apply decimal_cprintf_len).
  assert (Hsize : (length pre + k + length mid = length body + 1)%nat).
  { apply (f_equal length) in Hbody.
    rewrite !length_app, Hdec, length_fixed_digits in Hbody.
    simpl in Hbody. lia. }
  unfold cprintf.
  rewrite (cprintf_loop_text pre _ [] dest) by (done || lia).
  rewrite app_nil_l.
  rewrite <- (take_drop k (drop (length pre) dest)).
  assert (Hgap : length (take k (drop (length pre) dest)) = k)
    by (rewrite length_take, length_drop; lia).
  rewrite cprintf_loop_percent by (rewrite ?Hgap; lia).
  rewrite !Hgap, <- Hdec.
  rewrite cprintf_loop_text; [|done|rewrite !length_drop; lia].
  rewrite cprintf_loop_percent_spent
    by (unfold len_after_loop; case_match; lia).
  rewrite <- (app_assoc pre), Hbody.
  replace (len_after_loop (cprintf_len n)) with (-1)
    by (unfold len_after_loop; destruct (Z.ltb_spec 0 (cprintf_len n)); lia).
  replace (Z.of_nat (length (body ++ [x])) + -1)
    with (Z.of_nat (length body)) by (rewrite length_app; simpl; lia).
  rewrite <- (app_assoc body [x]). cbn [app].
  rewrite <- (app_nil_r post) at 1.
  rewrite cprintf_loop_text; [|done|].
  - cbn [cprintf_loop]. f_equal.
    + rewrite <- app_assoc. do 3 f_equal. f_equal.
      rewrite !drop_drop. f_equal. lia.
    + f_equal. by rewrite length_app.
  - cbn [length]. rewrite !length_drop. lia.
Qed.

Lemma cprintf_second_percent_witness :
  cprintf (replicate 8 NUL) (lit "a%b%cd") 42
  = (lit "a42cd" ++ [NUL; NUL; NUL], 5).
Proof.
  refine (cprintf_second_percent (replicate 8 NUL) (lit "a") (lit "b")
            (lit "cd") (lit "a42") "b"%char 42 _ _ _ _ _ _).
  - repeat constructor; discriminate.
  - repeat constructor; discriminate.
  - repeat constructor; discriminate.
  - lia.
  - reflexivity.
  - vm_compute. lia.
Defined.

(** ** [do_RVA_2_FileOffset]: what a result tells, and the end of the
    address space *)

(** X5.  The result is a [uint32_t], and a result other than 0 is never
    spurious: it is the mapping of the first node whose range contains the
    RVA. *)
Theorem do_RVA_2_FileOffset_nonzero (sections : list RVA_2_FileOffset)
    (RVA : Z) :
  0 <= do_RVA_2_FileOffset sections RVA < 2 ^ 32
  /\ (do_RVA_2_FileOffset sections RVA <> 0 ->
      exists before node after,
        sections = before ++ node :: after
        /\ Forall (fun s => ~ in_range s RVA) before
        /\ in_range node RVA
        /\ do_RVA_2_FileOffset sections RVA
           = u32 (RVA - VirtualAddress node + FileOffset node)).
Proof.
  induction sections as [|s sections [IHrange IHnode]]; cbn [do_RVA_2_FileOffset].
  - split; [lia|done].
  - destruct (rva_in_node s RVA) eqn:E.
    + split; [unfold u32; apply Z.mod_pos_bound; lia|].
      intros _. exists [], s, sections.
      repeat split; [constructor|by apply rva_in_node_spec..].
    + split; [done|]. intros Hnz.
      destruct (IHnode Hnz) as (before & node & after & -> & Hbefore & Hin & Heq).
      exists (s :: before), node, after.
      repeat split; try done; try apply Hin.
      constructor; [|done]. rewrite <- rva_in_node_spec. by rewrite E.
Qed.

Lemma do_RVA_2_FileOffset_nonzero_witness :
  exists before node after,
    example_sections = before ++ node :: after
    /\ Forall (fun s => ~ in_range s 0x2100) before
    /\ in_range node 0x2100
    /\ do_RVA_2_FileOffset example_sections 0x2100
       = u32 (0x2100 - VirtualAddress node + FileOffset node).
Proof.
  apply (proj2 (do_RVA_2_FileOffset_nonzero example_sections 0x2100)).
  vm_compute. discriminate.
Defined.

(** X6.  A node whose [VirtualAddress + VirtualSize] passes 2^32 contains no
    RVA at all, not even its own [VirtualAddress]: the sum wraps below the
    start, and the list answers as if the node were not there. *)
Theorem do_RVA_2_FileOffset_wrapping_node
    (before after : list RVA_2_FileOffset) (node : RVA_2_FileOffset)
    (RVA : Z) :
  0 <= VirtualAddress node < 2 ^ 32 ->
  0 <= VirtualSize node < 2 ^ 32 ->
  2 ^ 32 <= VirtualAddress node + VirtualSize node ->
  rva_in_node node RVA = false
  /\ do_RVA_2_FileOffset (before ++ node :: after) RVA
     = do_RVA_2_FileOffset (before ++ after) RVA.
Proof.
  intros Hva Hvs Hwrap.
  assert (Hout : rva_in_node node RVA = false).
  { unfold rva_in_node, u32.
    replace ((VirtualAddress node + VirtualSize node) mod 2 ^ 32)
      with (VirtualAddress node + VirtualSize node - 2 ^ 32).
    - apply andb_false_iff.
      destruct (Z.leb_spec (VirtualAddress node) RVA); [right|by left].
      apply Z.leb_gt. lia.
    - apply Z.mod_unique with 1; lia. }
  split; [done|].
  induction before as [|s before IH]; cbn [app do_RVA_2_FileOffset].
  - by rewrite Hout.
  - by rewrite IH.
Qed.

Lemma do_RVA_2_FileOffset_wrapping_node_witness :
  do_RVA_2_FileOffset
    [ {| VirtualAddress := 0xFFFFF000; VirtualSize := 0x2000;
         FileOffset := 0x400 |} ] 0xFFFFF000
  = 0.
Proof.
  refine (proj2 (do_RVA_2_FileOffset_wrapping_node []  []
                   {| VirtualAddress := 0xFFFFF000; VirtualSize := 0x2000;
                      FileOffset := 0x400 |} 0xFFFFF000 _ _ _));
    simpl; lia.
Defined.

(** ** What [parse_pe] returns and writes *)

Lemma strlen_bounds buf : 0 <= strlen buf <= Z.of_nat (length buf).
Proof.
  induction buf as [|c buf IH]; cbn [strlen length]; [lia|].
  destruct (Ascii.eqb c NUL); lia.
Qed.

Lemma strlen_no_NUL buf : NUL ∉ take (Z.to_nat (strlen buf)) buf.
Proof.
  induction buf as [|c buf IH]; cbn [strlen].
  - rewrite take_nil. apply not_elem_of_nil.
  - destruct (Ascii.eqb_spec c NUL) as [->|Hc].
    + cbn. apply not_elem_of_nil.
    + pose proof (strlen_bounds buf).
      replace (Z.to_nat (1 + strlen buf)) with (S (Z.to_nat (strlen buf)))
        by lia.
      cbn [take]. rewrite not_elem_of_cons. split; [congruence|done].
Qed.

Lemma strlen_poke_NUL buf g :
  0 <= g < Z.of_nat (length buf) -> strlen (poke buf g NUL) <= g.
Proof.
  unfold poke. destruct (Z.ltb_spec g 0); [lia|]. intros [_ Hg].
  assert (Hn : (Z.to_nat g < length buf)%nat) by lia.
  rewrite <- (Z2Nat.id g) at 2 by lia. clear Hg H.
  revert buf Hn. induction (Z.to_nat g) as [|k IH]; intros buf Hn.
  - destruct buf as [|c buf]; [simpl in Hn; lia|]. cbn. lia.
  - destruct buf as [|c buf]; [simpl in Hn; lia|].
    cbn [insert list_insert strlen]. fold (@insert _ _ _ (@list_insert ascii)).
    simpl in Hn. specialize (IH buf ltac:(lia)).
    destruct (Ascii.eqb c NUL); [lia|].
    transitivity (1 + Z.of_nat k); [apply Zplus_le_compat_l; exact IH|lia].
Qed.

Lemma poke_at done g tail idx c :
  idx = Z.of_nat (length done) ->
  poke (done ++ g :: tail) idx c = done ++ c :: tail.
Proof. intros ->. apply poke_middle. Qed.

(** The line feed stored after the text, and the bytes then written. *)
Lemma take_poke_LF buf len :
  0 <= len < Z.of_nat (length buf) ->
  Z.of_nat (length buf) < 2 ^ 32 ->
  take (Z.to_nat (u32 (len + 1))) (poke buf len LF)
  = take (Z.to_nat len) buf ++ [LF].
Proof.
  intros Hlen Hbuf.
  assert (Hu : u32 (len + 1) = len + 1) by (unfold u32; apply Z.mod_small; lia).
  rewrite Hu.
  rewrite <- (take_drop (Z.to_nat len) buf) at 1.
  destruct (drop (Z.to_nat len) buf) as [|g rest] eqn:Hdrop.
  { apply (f_equal length) in Hdrop. rewrite length_drop in Hdrop.
    simpl in Hdrop. lia. }
  assert (Htake : length (take (Z.to_nat len) buf) = Z.to_nat len)
    by (rewrite length_take; lia).
  rewrite poke_at by lia.
  replace (Z.to_nat (len + 1))
    with (length (take (Z.to_nat len) buf ++ [LF]))
    by (rewrite length_app; simpl; lia).
  replace (take (Z.to_nat len) buf ++ LF :: rest)
    with ((take (Z.to_nat len) buf ++ [LF]) ++ rest)
    by (by rewrite <- app_assoc).
  by rewrite take_app_length.
Qed.

(** What one read of a symbol leaves. *)
Lemma read_symbol_shape t c st :
  length (pub_name c) = 80%nat ->
  match Dll2def.read_symbol t c st with
  | Return rc st' => rc = ERR_BAD_FORMAT /\ hOut st' = hOut st
  | Next c' st' =>
      hOut st' = hOut st
      /\ length (pub_name c') = 80%nat
      /\ 0 <= ordinal c' < 65536
      /\ 0 <= strlen (pub_name c') <= 77
  end.
Proof.
  intros Hlen.
  unfold Dll2def.read_symbol, mbind, PE_bind, pe_bind, mret, PE_ret, pe_ret.
  cbn [seekg_beg].
  set (name0 := poke (pub_name c) 0 NUL).
  assert (Hname0 : length name0 = 80%nat)
    by (unfold name0; by rewrite length_poke).
  assert (Hstr0 : 0 <= strlen name0 <= 77).
  { pose proof (strlen_bounds name0).
    pose proof (strlen_poke_NUL (pub_name c) 0 ltac:(lia)). fold name0 in H0.
    lia. }
  assert (Hfinish : forall iv name1 st2,
    hOut st2 = hOut st ->
    length name1 = 80%nat ->
    0 <= strlen name1 <= 77 ->
    match
      match read_scalar 2 (ordinal c)
              {| hFile := ifstream_seekg (ordinals_array c) (hFile st2);
                 hOut := hOut st2 |} with
      | Return rc st3 => Return rc st3
      | Next a st3 =>
          Next {| psymbols_array := u32 (psymbols_array c + 4);
                  ordinals_array := u32 (ordinals_array c + 2);
                  i := iv; ordinal := a; pub_name := name1 |} st3
      end
    with
    | Return rc st' => rc = ERR_BAD_FORMAT /\ hOut st' = hOut st
    | Next c' st' =>
        hOut st' = hOut st
        /\ length (pub_name c') = 80%nat
        /\ 0 <= ordinal c' < 65536
        /\ 0 <= strlen (pub_name c') <= 77
    end).
  { intros iv name1 st2 Hout Hname1 Hstr1. unfold read_scalar. cbn [hFile hOut].
    pose proof (length_read (Z.of_nat 2)
                  (ifstream_seekg (ordinals_array c) (hFile st2))) as Hdata.
    destruct (ifstream_read (Z.of_nat 2) _) as [data s]. simpl in Hdata.
    cbn [hOut pub_name ordinal]. repeat split; try done; try lia.
    - apply le_decode_bound.
    - pose proof (le_decode_bound (store (le_encode 2 (ordinal c)) data)) as H.
      rewrite length_store, length_le_encode in H
        by (rewrite length_le_encode; lia).
      change (256 ^ Z.of_nat 2) with 65536 in H. lia. }
  unfold read_scalar at 1. cbn [hFile hOut].
  destruct (ifstream_read (Z.of_nat 4)
              (ifstream_seekg (psymbols_array c) (hFile st))) as [data4 s4].
  set (iv := le_decode (store (le_encode 4 (i c)) data4)).
  destruct (negb (iv =? 0)); [|by apply Hfinish].
  unfold return_if.
  destruct (do_RVA_2_FileOffset (et_sections t) iv =? 0); [done|].
  unfold read_into. cbn [hFile hOut].
  pose proof (length_read (80 - 3)
                (ifstream_seekg (do_RVA_2_FileOffset (et_sections t) iv) s4))
    as Hdata.
  destruct (ifstream_read (80 - 3) _) as [data s] eqn:Hread.
  simpl in Hdata.
  assert (Hgcount : is_gcount s = Z.of_nat (length data)).
  { unfold ifstream_read in Hread. case_match; injection Hread as <- <-; done. }
  rewrite Hgcount.
  assert (Hstore : length (store name0 data) = 80%nat)
    by (rewrite length_store; [done|lia]).
  apply Hfinish; [done|by rewrite length_poke|].
  pose proof (strlen_bounds (poke (store name0 data) (Z.of_nat (length data)) NUL)).
  pose proof (strlen_poke_NUL (store name0 data) (Z.of_nat (length data))
                ltac:(lia)).
  lia.
Qed.

Lemma load_sections_shape k : forall buf sections st,
  match Dll2def.load_sections k buf sections st with
  | Return rc st' => rc = ERR_BAD_FORMAT /\ hOut st' = hOut st
  | Next _ st' => hOut st' = hOut st
  end.
Proof.
  induction k as [|k IH]; intros buf sections st; [done|].
  cbn [Dll2def.load_sections].
  unfold mbind, PE_bind, pe_bind, read_into, return_if.
  destruct (ifstream_read 40 (hFile st)) as [data s].
  destruct (negb (is_gcount s =? 40)); [done|].
  match goal with
  | |- context [Dll2def.load_sections k ?b ?l ?st1] =>
      specialize (IH b l st1);
      destruct (Dll2def.load_sections k b l st1)
  end; exact IH.
Qed.

Lemma u32_at_nonneg buf off : 0 <= u32_at buf off.
Proof. unfold u32_at. apply le_decode_bound. Qed.

(** What the part of [parse_pe] before the loop returns and writes. *)
Lemma pe_headers_shape st :
  match Dll2def.pe_headers st with
  | Return rc st' =>
      (rc = ERR_BAD_FORMAT /\ hOut st' = hOut st)
      \/ (exists x64, (rc = ERR_NO_EXPORT \/ rc = ERR_BAD_FORMAT)
                      /\ hOut st' = hOut st ++ include_line x64)
  | Next t st' =>
      exists x64, hOut st' = hOut st ++ include_line x64
                  /\ 0 < et_num_names t
  end.
Proof.
  unfold Dll2def.pe_headers, mbind, PE_bind, pe_bind, mret, PE_ret, pe_ret,
    return_if, read_into, seekg_beg, seekg_cur, put.
  cbn [hFile hOut].
  repeat
    match goal with
    | |- context [Dll2def.load_sections ?k ?b ?l ?s] =>
        let H := fresh "Hload" in
        pose proof (load_sections_shape k b l s) as H;
        destruct (Dll2def.load_sections k b l s) as [? ?|[? ?] ?];
        cbn [hFile hOut] in H |- *
    | |- context [ifstream_read ?n ?s] =>
        destruct (ifstream_read n s) as [? ?]; cbn [hFile hOut]
    | |- context [if ?b then _ else _] =>
        let E := fresh "E" in destruct b eqn:E; cbn [hFile hOut]
    end.
  all: try match goal with
            | H : _ = ERR_BAD_FORMAT /\ _ |- _ => destruct H as [-> H]
            end.
  all: try match goal with
            | H : hOut _ = _ |- _ => rewrite H; clear H
            end.
  all: repeat match goal with
              | |- context [if ?b then lit "64" else _] => destruct b
              end.
  all: try (left; split; reflexivity).
  all: try (right; exists true; split; [tauto|reflexivity]).
  all: try (right; exists false; split; [tauto|reflexivity]).
  all: cbn [et_num_names].
  all: match goal with
       | H : _ || _ = false |- exists _, _ /\ 0 < u32_at ?b ?o =>
           pose proof (u32_at_nonneg b o);
           repeat (apply orb_false_elim in H as [H ?]);
           assert (0 < u32_at b o) by lia
       end.
  all: first [exists true; split; [reflexivity|assumption]
             |exists false; split; [reflexivity|assumption]].
Qed.

Lemma NUL_not_in_digits ds : Forall is_digit ds -> NUL ∉ ds.
Proof.
  intros Hds Hin. rewrite Forall_forall in Hds.
  specialize (Hds NUL Hin). unfold is_digit in Hds.
  change (code NUL) with 0 in Hds. lia.
Qed.

(** The text of a symbol without a name. *)
Lemma ord_text_ok n :
  0 <= n <= 131070 -> symbol_text (lit "ord." ++ decimal n).
Proof.
  intros Hn. pose proof (length_decimal n ltac:(lia)) as Hlen.
  destruct (decimal_properties n ltac:(lia)) as (_ & Hdigits & _).
  repeat split.
  - done.
  - rewrite elem_of_app. intros [Hin|Hin].
    + cbn in Hin.
      repeat (apply elem_of_cons in Hin as [Hin|Hin]; [discriminate Hin|]).
      by apply elem_of_nil in Hin.
    + by apply NUL_not_in_digits in Hin.
  - rewrite length_app. change (length (lit "ord.")) with 4%nat. lia.
Qed.

(** The text one round of dll2def writes after [read_symbol]. *)
Lemma round_text t c1 :
  0 <= et_ordinal_base t < 65536 ->
  length (pub_name c1) = 80%nat ->
  0 <= ordinal c1 < 65536 ->
  0 <= strlen (pub_name c1) <= 77 ->
  let '(buf, len) :=
    if strlen (pub_name c1) =? 0 then
      let '(buf, r) :=
        cprintf (pub_name c1) (lit "ord.%")
                (int_of_u32 (u32 (ordinal c1 + et_ordinal_base t))) in
      (buf, u32 r)
    else (pub_name c1, strlen (pub_name c1)) in
  length (poke buf len LF) = 80%nat
  /\ exists text,
      symbol_text text
      /\ take (Z.to_nat (u32 (len + 1))) (poke buf len LF) = text ++ [LF]
      /\ (strlen (pub_name c1) = 0 ->
          text = lit "ord." ++ decimal (u32 (ordinal c1 + et_ordinal_base t))).
Proof.
  intros Hbase Hlen Hord Hstr.
  destruct (Z.eqb_spec (strlen (pub_name c1)) 0) as [Hzero|Hname].
  - set (n := u32 (ordinal c1 + et_ordinal_base t)).
    assert (Hn : 0 <= n <= 131070)
      by (unfold n, u32; rewrite Z.mod_small; lia).
    assert (Hint : int_of_u32 n = n) by (unfold int_of_u32; case_match; lia).
    pose proof (length_decimal n ltac:(lia)) as Hdec.
    set (ss := lit "ord." ++ decimal n).
    assert (Hss : length ss = (4 + length (decimal n))%nat) by done.
    assert (Hc := cprintf_replaces_percent (pub_name c1) (lit "ord.") [] n).
    assert (Hplain : Forall plain_char (lit "ord."))
      by (repeat constructor; done).
    assert (Hroom : (length (lit "ord." ++ decimal n ++ [])
                     <= length (pub_name c1))%nat)
      by (rewrite app_nil_r; fold ss; lia).
    specialize (Hc Hplain ltac:(constructor) ltac:(lia) Hroom).
    rewrite app_nil_r, app_nil_l, (app_assoc (lit "ord.")) in Hc.
    fold ss in Hc.
    rewrite Hint. change (lit "ord.%") with (lit "ord." ++ ["%"%char]).
    rewrite Hc.
    assert (Hu : u32 (Z.of_nat (length ss)) = Z.of_nat (length ss))
      by (unfold u32; apply Z.mod_small; lia).
    rewrite Hu.
    assert (Hbuf : length (ss ++ drop (length ss) (pub_name c1)) = 80%nat)
      by (rewrite length_app, length_drop; lia).
    split; [by rewrite length_poke|].
    exists ss. split; [by apply ord_text_ok|]. split; [|done].
    rewrite take_poke_LF by lia.
    by rewrite Nat2Z.id, take_app_length.
  - split; [by rewrite length_poke|].
    exists (take (Z.to_nat (strlen (pub_name c1))) (pub_name c1)).
    split; [|split; [apply take_poke_LF; lia|done]].
    repeat split.
    + intros Hnil. apply (f_equal length) in Hnil.
      rewrite length_take in Hnil. simpl in Hnil. lia.
    + apply strlen_no_NUL.
    + rewrite length_take. lia.
Qed.

(** What the loop over the names returns and writes. *)
Lemma export_loop_shape filename t :
  0 <= et_ordinal_base t < 65536 ->
  forall k c st,
    length (pub_name c) = 80%nat ->
    exists texts,
      hOut (state_of (Dll2def.export_loop filename t k c st))
      = hOut st ++ concat (implib_line filename <$> texts)
      /\ Forall symbol_text texts
      /\ match Dll2def.export_loop filename t k c st with
         | Return rc _ => rc = ERR_BAD_FORMAT /\ (length texts < k)%nat
         | Next _ _ => length texts = k
         end.
Proof.
  intros Hbase. induction k as [|k IH]; intros c st Hlen.
  - exists []. cbn. by rewrite app_nil_r.
  - cbn [Dll2def.export_loop]. unfold mbind, PE_bind, pe_bind.
    pose proof (read_symbol_shape t c st Hlen) as Hread.
    destruct (Dll2def.read_symbol t c st) as [rc st1|c1 st1].
    { destruct Hread as [-> Hout]. exists []. cbn.
      rewrite app_nil_r. repeat split; [done|constructor|lia]. }
    destruct Hread as (Hout & Hlen1 & Hord & Hstr).
    pose proof (round_text t c1 Hbase Hlen1 Hord Hstr) as Hround.
    destruct (if strlen (pub_name c1) =? 0 then _ else _) as [buf len].
    destruct Hround as (Hbuf & text & Htext & Htake & _).
    rewrite put_implib_eq.
    match goal with
    | |- context [Dll2def.export_loop filename t k ?c2 ?st2] =>
        destruct (IH c2 st2) as (texts & Hout2 & Htexts & Hrc);
        [exact Hbuf|]; exists (text :: texts);
        destruct (Dll2def.export_loop filename t k c2 st2)
    end.
    all: unfold state_of in *; cbn [hOut] in *; rewrite Hout2, Htake, Hout.
    all: split; [cbn [fmap list_fmap concat]; unfold implib_line;
                 by rewrite <- !app_assoc|].
    all: split; [by constructor|]; cbn [length]; intuition lia.
Qed.

(** What [parse_pe] of dll2def returns and writes, in one statement. *)
Lemma parse_pe_shape filename file junk :
  match file with
  | None => Dll2def.parse_pe filename file junk = (ERR_FILE_NOT_FOUND, [])
  | Some _ =>
      Dll2def.parse_pe filename file junk = (ERR_BAD_FORMAT, [])
      \/ exists x64 texts,
          (Dll2def.parse_pe filename file junk).2
          = include_line x64 ++ concat (implib_line filename <$> texts)
          /\ Forall symbol_text texts
          /\ ((Dll2def.parse_pe filename file junk).1 = ERR_OK /\ texts <> []
              \/ (Dll2def.parse_pe filename file junk).1 = ERR_BAD_FORMAT
              \/ (Dll2def.parse_pe filename file junk).1 = ERR_NO_EXPORT
                 /\ texts = [])
  end.
Proof.
  destruct file as [bytes|]; [|done].
  unfold Dll2def.parse_pe, mbind, PE_bind, pe_bind.
  set (st0 := {| hFile := ifstream_open bytes; hOut := [] |}).
  pose proof (pe_headers_shape st0) as Hheaders.
  pose proof (pe_headers_base st0) as Hbase.
  destruct (Dll2def.pe_headers st0) as [rc st1|t st1].
  - destruct Hheaders as [[-> Hout]|(x64 & Hrc & Hout)]; cbn [finish].
    + left. by rewrite Hout.
    + right. exists x64, []. cbn [fst snd]. rewrite Hout. cbn.
      rewrite app_nil_r. split; [done|]. split; [constructor|].
      destruct Hrc as [->| ->]; auto.
  - destruct Hheaders as (x64 & Hout & Hnum).
    specialize (Hbase t st1 eq_refl).
    destruct (export_loop_shape filename t Hbase (Z.to_nat (et_num_names t))
                (first_cursor t junk) st1)
      as (texts & Hout2 & Htexts & Hrc).
    { cbn [first_cursor pub_name]. by rewrite length_replicate. }
    right. exists x64, texts.
    destruct (Dll2def.export_loop filename t _ _ st1) as [rc st2|[] st2];
      cbn [finish fst snd state_of] in *.
    + rewrite Hout2, Hout. cbn [app]. split; [by rewrite <- app_assoc|].
      split; [done|]. right. left. apply Hrc.
    + rewrite Hout2, Hout. cbn [app]. split; [by rewrite <- app_assoc|].
      split; [done|]. left. split; [done|].
      intros ->. simpl in Hrc. lia.
Qed.

(** The two tools, once more, for the properties below. *)
Lemma parse_pe_same filename file junk :
  Dumpsyms.parse_pe filename file junk = Dll2def.parse_pe filename file junk.
Proof.
  unfold Dll2def.parse_pe, Dumpsyms.parse_pe.
  destruct file as [bytes|]; [|done]. f_equal.
  rewrite pe_headers_same.
  unfold mbind at 1 2. unfold PE_bind, pe_bind.
  destruct (Dll2def.pe_headers _) as [rc st|t st] eqn:Hheaders; [done|].
  symmetry. apply export_loop_agree; [by eapply pe_headers_base|done].
Qed.

(** X7.  Each of the two [parse_pe] returns only [ERR_OK],
    [ERR_FILE_NOT_FOUND], [ERR_BAD_FORMAT] or [ERR_NO_EXPORT], never one of
    the other three codes, and [ERR_FILE_NOT_FOUND] exactly when the file
    cannot be opened. *)
Theorem parse_pe_error_codes (filename : string)
    (file : option (list ascii)) (junk : Indeterminate) :
  Forall (fun parse_pe =>
            let rc := (parse_pe filename file junk).1 in
            match file with
            | None => rc = ERR_FILE_NOT_FOUND
            | Some _ =>
                rc = ERR_OK \/ rc = ERR_BAD_FORMAT \/ rc = ERR_NO_EXPORT
            end
            /\ 0 <= err_code rc <= 4)
         [Dll2def.parse_pe; Dumpsyms.parse_pe].
Proof.
  assert (H : let rc := (Dll2def.parse_pe filename file junk).1 in
              match file with
              | None => rc = ERR_FILE_NOT_FOUND
              | Some _ =>
                  rc = ERR_OK \/ rc = ERR_BAD_FORMAT \/ rc = ERR_NO_EXPORT
              end
              /\ 0 <= err_code rc <= 4).
  { cbv zeta. pose proof (parse_pe_shape filename file junk) as Hshape.
    destruct file as [bytes|].
    - destruct Hshape as [->|(x64 & texts & _ & _ & Hrc)]; cbn [fst].
      + split; [auto|cbn; lia].
      + destruct Hrc as [[-> _]|[->|[-> _]]]; (split; [auto|cbn; lia]).
    - rewrite Hshape. cbn. split; [done|lia]. }
  constructor; [exact H|]. constructor; [|constructor].
  cbv zeta. rewrite parse_pe_same. exact H.
Qed.

(** X8.  What each [parse_pe] writes is nothing at all, or the include line
    followed by [implib] lines, one per symbol, each with a text that is not
    empty, has no NUL and at most 77 bytes; a run that returns [ERR_OK] has
    written the include line and at least one [implib] line, and one that
    returns [ERR_NO_EXPORT] the include line alone. *)
Theorem parse_pe_output_grammar (filename : string)
    (file : option (list ascii)) (junk : Indeterminate) :
  Forall (fun parse_pe =>
            let rc := (parse_pe filename file junk).1 in
            let out := (parse_pe filename file junk).2 in
            (out = [] /\ (rc = ERR_FILE_NOT_FOUND \/ rc = ERR_BAD_FORMAT))
            \/ exists x64 texts,
                out = include_line x64
                        ++ concat (implib_line filename <$> texts)
                /\ Forall symbol_text texts
                /\ (rc = ERR_OK /\ texts <> []
                    \/ rc = ERR_BAD_FORMAT
                    \/ rc = ERR_NO_EXPORT /\ texts = []))
         [Dll2def.parse_pe; Dumpsyms.parse_pe].
Proof.
  assert (H : let rc := (Dll2def.parse_pe filename file junk).1 in
              let out := (Dll2def.parse_pe filename file junk).2 in
              (out = [] /\ (rc = ERR_FILE_NOT_FOUND \/ rc = ERR_BAD_FORMAT))
              \/ exists x64 texts,
                  out = include_line x64
                          ++ concat (implib_line filename <$> texts)
                  /\ Forall symbol_text texts
                  /\ (rc = ERR_OK /\ texts <> []
                      \/ rc = ERR_BAD_FORMAT
                      \/ rc = ERR_NO_EXPORT /\ texts = [])).
  { cbv zeta. pose proof (parse_pe_shape filename file junk) as Hshape.
    destruct file as [bytes|].
    - destruct Hshape as [->|Hshape]; [left; auto|by right].
    - rewrite Hshape. left. auto. }
  constructor; [exact H|]. constructor; [|constructor].
  cbv zeta. rewrite parse_pe_same. exact H.
Qed.

Lemma pe_bind_Return_eq {A B} (m : PE A) (k : A -> PE B) st rc st' :
  m st = Return rc st' -> (m ≫= k) st = Return rc st'.
Proof. intros H. unfold mbind, PE_bind, pe_bind. by rewrite H. Qed.

Lemma pe_bind_Next_eq {A B} (m : PE A) (k : A -> PE B) st a st' :
  m st = Next a st' -> (m ≫= k) st = k a st'.
Proof. intros H. unfold mbind, PE_bind, pe_bind. by rewrite H. Qed.

Lemma parse_pe_short filename bytes junk :
  (length bytes < 0x40)%nat ->
  Dll2def.parse_pe filename (Some bytes) junk = (ERR_BAD_FORMAT, []).
Proof.
  intros Hshort.
  { set (st0 := {| hFile := ifstream_open bytes; hOut := [] |}).
    assert (Hheaders :
      Dll2def.pe_headers st0
      = Return ERR_BAD_FORMAT
          {| hFile := (ifstream_read 0x40 (hFile st0)).2; hOut := [] |}).
    { unfold Dll2def.pe_headers.
      erewrite pe_bind_Next_eq; [|reflexivity].
      apply pe_bind_Return_eq. unfold return_if.
      cbn [st0 hFile hOut ifstream_open ifstream_read is_fail is_gcount
           is_pos is_bytes snd].
      change (Z.to_nat 0) with 0%nat. rewrite drop_0.
      rewrite take_ge by (change (Z.to_nat 64) with 64%nat; lia).
      destruct (Z.eqb_spec (Z.of_nat (length bytes)) 64); [lia|done]. }
    unfold Dll2def.parse_pe. fold st0.
    by rewrite (pe_bind_Return_eq _ _ _ _ _ Hheaders). }
Qed.

(** X9.  A file of fewer than 0x40 bytes, an empty one among them, is
    answered by both tools with [ERR_BAD_FORMAT] and not a byte of output. *)
Theorem parse_pe_short_file (filename : string) (bytes : list ascii)
    (junk : Indeterminate) :
  (length bytes < 0x40)%nat ->
  Dll2def.parse_pe filename (Some bytes) junk = (ERR_BAD_FORMAT, [])
  /\ Dumpsyms.parse_pe filename (Some bytes) junk = (ERR_BAD_FORMAT, []).
Proof.
  intros Hshort. rewrite parse_pe_same.
  split; by apply parse_pe_short.
Qed.

Lemma parse_pe_short_file_witness :
  Dll2def.parse_pe "a.dll" (Some []) example_junk = (ERR_BAD_FORMAT, [])
  /\ Dumpsyms.parse_pe "a.dll" (Some []) example_junk = (ERR_BAD_FORMAT, []).
Proof.
  apply (parse_pe_short_file "a.dll" [] example_junk). simpl. lia.
Defined.

(** ** After a read has failed *)

Lemma code_char_of_int_mod z : code (char_of_int z) = z mod 256.
Proof.
  unfold code, char_of_int.
  pose proof (Z.mod_pos_bound z 256 ltac:(lia)).
  rewrite N_ascii_embedding by lia. lia.
Qed.

(** A scalar read back from its own bytes. *)
Lemma le_decode_encode k : forall z,
  le_decode (le_encode k z) = z mod 256 ^ Z.of_nat k.
Proof.
  induction k as [|k IH]; intros z.
  - cbn. by rewrite Z.mod_1_r.
  - cbn [le_encode le_decode foldr]. fold (le_decode (le_encode k (z / 256))).
    rewrite IH, code_char_of_int_mod.
    rewrite Nat2Z.inj_succ, Z.pow_succ_r by lia.
    assert (0 < 256 ^ Z.of_nat k) by (apply Z.pow_pos_nonneg; lia).
    by rewrite Z.rem_mul_r by lia.
Qed.

(** With the fail flag set, a read of a scalar leaves the scalar as it was
    and the stream failed. *)
Lemma read_scalar_failed k v st :
  is_fail (hFile st) = true ->
  exists s,
    read_scalar k v st
    = Next (v mod 256 ^ Z.of_nat k) {| hFile := s; hOut := hOut st |}
    /\ is_fail s = true.
Proof.
  intros Hfail.
  exists {| is_bytes := is_bytes (hFile st); is_pos := is_pos (hFile st);
            is_fail := true; is_gcount := 0 |}.
  split; [|reflexivity].
  unfold read_scalar, ifstream_read. rewrite Hfail.
  unfold store. cbn [app length]. by rewrite drop_0, le_decode_encode.
Qed.

Lemma read_scalar_failed_eq k v st :
  is_fail (hFile st) = true ->
  read_scalar k v st
  = Next (v mod 256 ^ Z.of_nat k)
      {| hFile := (ifstream_read (Z.of_nat k) (hFile st)).2;
         hOut := hOut st |}.
Proof.
  intros Hfail. unfold read_scalar, ifstream_read. rewrite Hfail.
  unfold store. cbn [app length snd]. by rewrite drop_0, le_decode_encode.
Qed.

Lemma strlen_poke_0 buf : buf <> [] -> strlen (poke buf 0 NUL) = 0.
Proof. destruct buf as [|c buf]; [done|]. reflexivity. Qed.

(** One read of a symbol from a failed stream: nothing is read, [i] and
    [ordinal] keep their values and [pub_name] is empty. *)
Lemma read_symbol_failed t c st :
  is_fail (hFile st) = true ->
  length (pub_name c) = 80%nat ->
  (i c mod 2 ^ 32 = 0
   \/ do_RVA_2_FileOffset (et_sections t) (i c mod 2 ^ 32) <> 0) ->
  exists c' st',
    Dll2def.read_symbol t c st = Next c' st'
    /\ hOut st' = hOut st
    /\ is_fail (hFile st') = true
    /\ i c' = i c mod 2 ^ 32
    /\ ordinal c' = ordinal c mod 2 ^ 16
    /\ length (pub_name c') = 80%nat
    /\ strlen (pub_name c') = 0.
Proof.
  intros Hfail Hlen Hi.
  assert (Hseek : forall pos s, is_fail s = true -> ifstream_seekg pos s = s)
    by (intros pos s Hs; unfold ifstream_seekg; by rewrite Hs).
  set (name0 := poke (pub_name c) 0 NUL).
  assert (Hname0 : length name0 = 80%nat)
    by (unfold name0; by rewrite length_poke).
  assert (Hstr0 : strlen name0 = 0).
  { apply strlen_poke_0. intros Hnil. by rewrite Hnil in Hlen. }
  unfold Dll2def.read_symbol.
  erewrite pe_bind_Next_eq; [|reflexivity].
  cbn [seekg_beg hFile hOut]. rewrite Hseek by done.
  destruct (read_scalar_failed 4 (i c)
              {| hFile := hFile st; hOut := hOut st |} Hfail)
    as (s1 & Hread1 & Hfail1).
  erewrite pe_bind_Next_eq; [|exact Hread1].
  change (256 ^ Z.of_nat 4) with (2 ^ 32). cbn [hOut].
  set (iv := i c mod 2 ^ 32) in *.
  assert (Hname : exists name1 s2,
    ((if negb (iv =? 0)
      then
        return_if (do_RVA_2_FileOffset (et_sections t) iv =? 0) ERR_BAD_FORMAT
        ≫= (fun _ =>
              seekg_beg (do_RVA_2_FileOffset (et_sections t) iv)
              ≫= (fun _ =>
                    read_into name0 (80 - 3)
                    ≫= (fun '(pub_name, gcount) =>
                          mret (poke pub_name gcount NUL))))
      else mret name0) : PE (list ascii))
      {| hFile := s1; hOut := hOut st |}
    = Next name1 {| hFile := s2; hOut := hOut st |}
    /\ is_fail s2 = true /\ length name1 = 80%nat /\ strlen name1 = 0).
  { destruct (Z.eqb_spec iv 0) as [Hzero|Hnz]; cbn [negb].
    - by exists name0, s1.
    - destruct Hi as [Hi|Hi]; [done|].
      destruct (Z.eqb_spec (do_RVA_2_FileOffset (et_sections t) iv) 0)
        as [Hbad|_]; [done|].
      erewrite pe_bind_Next_eq; [|reflexivity].
      erewrite pe_bind_Next_eq; [|reflexivity].
      cbn [hFile hOut]. rewrite Hseek by done.
      unfold read_into, ifstream_read, mbind, PE_bind, pe_bind, mret, PE_ret,
        pe_ret.
      cbn [hFile hOut]. rewrite Hfail1. cbn [is_gcount].
      unfold store. cbn [app length]. rewrite drop_0.
      eexists _, _. split; [reflexivity|]. cbn [is_fail].
      split; [done|]. split; [by rewrite length_poke|].
      apply strlen_poke_0. intros Hnil. by rewrite Hnil in Hname0. }
  destruct Hname as (name1 & s2 & Hname & Hfail2 & Hlen1 & Hstr1).
  erewrite pe_bind_Next_eq; [|exact Hname].
  erewrite pe_bind_Next_eq; [|reflexivity].
  cbn [hFile hOut]. rewrite Hseek by done.
  destruct (read_scalar_failed 2 (ordinal c)
              {| hFile := s2; hOut := hOut st |} Hfail2)
    as (s3 & Hread3 & Hfail3).
  erewrite pe_bind_Next_eq; [|exact Hread3].
  eexists _, _. split; [reflexivity|]. cbn.
  repeat split; done.
Qed.

(** X10.  A failed read is never recovered from.  Once [hFile] has failed
    (a read has found fewer bytes than asked, which none of the reads in the
    loop tests for), every further round reads nothing: with [i] zero or
    mapped, each of the [k] rounds left writes the same line, [ord.] and the
    ordinal of the last symbol read plus the base, whatever the file holds;
    with [i] not mapped the loop returns [ERR_BAD_FORMAT] at once. *)
Theorem export_loop_after_failure (filename : string) (t : ExportTables)
    (k : nat) (c : Cursor) (st : PEState) :
  0 <= et_ordinal_base t < 65536 ->
  length (pub_name c) = 80%nat ->
  is_fail (hFile st) = true ->
  let iv := i c mod 2 ^ 32 in
  let line :=
    implib_line filename
      (lit "ord." ++ decimal (u32 (ordinal c mod 2 ^ 16 + et_ordinal_base t))) in
  (iv = 0 \/ do_RVA_2_FileOffset (et_sections t) iv <> 0 ->
   exists st',
     Dll2def.export_loop filename t k c st = Next tt st'
     /\ Dumpsyms.export_loop filename t k c st = Next tt st'
     /\ hOut st' = hOut st ++ concat (replicate k line))
  /\ (iv <> 0 -> do_RVA_2_FileOffset (et_sections t) iv = 0 ->
      Dll2def.export_loop filename t (S k) c st
      = Return ERR_BAD_FORMAT
          {| hFile := (ifstream_read 4 (hFile st)).2; hOut := hOut st |}).
Proof.
  intros Hbase Hlen Hfail iv line. split.
  - intros Hi.
    assert (Hdll : exists st',
      Dll2def.export_loop filename t k c st = Next tt st'
      /\ hOut st' = hOut st ++ concat (replicate k line)).
    { subst line iv. revert c st Hlen Hfail Hi.
      induction k as [|k IH]; intros c st Hlen Hfail Hi.
      - exists st. cbn. by rewrite app_nil_r.
      - destruct (read_symbol_failed t c st Hfail Hlen Hi)
          as (c1 & st1 & Hread & Hout & Hfail1 & Hi1 & Hord1 & Hlen1 & Hstr1).
        cbn [Dll2def.export_loop].
        erewrite pe_bind_Next_eq; [|exact Hread].
        assert (Hord : 0 <= ordinal c1 < 65536)
          by (rewrite Hord1; apply Z.mod_pos_bound; lia).
        pose proof (round_text t c1 Hbase Hlen1 Hord ltac:(lia)) as Hround.
        destruct (if strlen (pub_name c1) =? 0 then _ else _) as [buf len].
        destruct Hround as (Hbuf & text & _ & Htake & Htext).
        specialize (Htext Hstr1).
        erewrite pe_bind_Next_eq; [|apply put_implib_eq].
        destruct (IH (set_pub_name c1 (poke buf len LF))
                    {| hFile := hFile st1;
                       hOut := hOut st1 ++ lit "implib " ++ lit filename
                                 ++ lit ", "
                                 ++ take (Z.to_nat (u32 (len + 1)))
                                      (poke buf len LF) |})
          as (st' & Hloop & Hout').
        + done.
        + done.
        + cbn [set_pub_name i]. rewrite Hi1, Z.mod_mod by lia. exact Hi.
        + exists st'. split; [exact Hloop|].
          rewrite Hout'. cbn [hOut set_pub_name ordinal replicate concat].
          rewrite Hout, Htake, Htext, Hord1, Z.mod_mod by lia.
          unfold implib_line. by rewrite <- !app_assoc. }
    destruct Hdll as (st' & Hloop & Hout). exists st'.
    split; [done|]. split; [|done].
    by rewrite <- export_loop_agree.
  - intros Hnz Hbad. cbn [Dll2def.export_loop].
    apply pe_bind_Return_eq. unfold Dll2def.read_symbol.
    erewrite pe_bind_Next_eq; [|reflexivity].
    assert (Hseek : forall pos, ifstream_seekg pos (hFile st) = hFile st)
      by (intros pos; unfold ifstream_seekg; by rewrite Hfail).
    cbn [seekg_beg hFile hOut]. rewrite Hseek.
    erewrite pe_bind_Next_eq; [|by apply read_scalar_failed_eq].
    change (256 ^ Z.of_nat 4) with (2 ^ 32). fold iv. cbn [hFile hOut].
    destruct (Z.eqb_spec iv 0) as [|_]; [done|]. cbn [negb].
    apply pe_bind_Return_eq. apply pe_bind_Return_eq.
    unfold return_if. rewrite Hbad. reflexivity.
Qed.

Lemma export_loop_after_failure_witness :
  (exists st',
     Dll2def.export_loop "a.dll"
       {| et_sections := []; et_ordinal_base := 1; et_num_names := 2;
          et_psymbols_array := 0; et_ordinals_array := 0 |}
       2
       {| psymbols_array := 0; ordinals_array := 0; i := 0; ordinal := 5;
          pub_name := replicate 80 NUL |}
       {| hFile := {| is_bytes := []; is_pos := 0; is_fail := true;
                      is_gcount := 0 |};
          hOut := [] |}
     = Next tt st'
     /\ hOut st'
        = concat (replicate 2 (implib_line "a.dll" (lit "ord." ++ decimal 6))))
  /\ Dll2def.export_loop "a.dll"
       {| et_sections := []; et_ordinal_base := 1; et_num_names := 2;
          et_psymbols_array := 0; et_ordinals_array := 0 |}
       2
       {| psymbols_array := 0; ordinals_array := 0; i := 7; ordinal := 5;
          pub_name := replicate 80 NUL |}
       {| hFile := {| is_bytes := []; is_pos := 0; is_fail := true;
                      is_gcount := 0 |};
          hOut := [] |}
     = Return ERR_BAD_FORMAT
         {| hFile := {| is_bytes := []; is_pos := 0; is_fail := true;
                        is_gcount := 0 |};
            hOut := [] |}.
Proof.
  split.
  - destruct (export_loop_after_failure "a.dll"
      {| et_sections := []; et_ordinal_base := 1; et_num_names := 2;
         et_psymbols_array := 0; et_ordinals_array := 0 |}
      2
      {| psymbols_array := 0; ordinals_array := 0; i := 0; ordinal := 5;
         pub_name := replicate 80 NUL |}
      {| hFile := {| is_bytes := []; is_pos := 0; is_fail := true;
                     is_gcount := 0 |};
         hOut := [] |}) as [Hgoes _].
    + simpl. lia.
    + reflexivity.
    + reflexivity.
    + destruct Hgoes as (st' & Hloop & _ & Hout); [left; reflexivity|].
      exists st'. split; [exact Hloop|exact Hout].
  - destruct (export_loop_after_failure "a.dll"
      {| et_sections := []; et_ordinal_base := 1; et_num_names := 2;
         et_psymbols_array := 0; et_ordinals_array := 0 |}
      1
      {| psymbols_array := 0; ordinals_array := 0; i := 7; ordinal := 5;
         pub_name := replicate 80 NUL |}
      {| hFile := {| is_bytes := []; is_pos := 0; is_fail := true;
                     is_gcount := 0 |};
         hOut := [] |}) as [_ Hstops].
    + simpl. lia.
    + reflexivity.
    + reflexivity.
    + apply Hstops; [discriminate|reflexivity].
Defined.

(** ** Any sequence of calls on a builder *)

Lemma run_calls_snoc h a d m cs c :
  run_calls h a d m (cs ++ [c]) = call c (run_calls h a d m cs).
Proof. unfold run_calls. by rewrite foldl_app. Qed.

Lemma run_calls_inv h a d m cs :
  let st := run_calls h a d m cs in
  m_arch st.2 = a /\ m_dllName st.2 = d /\ m_memName st.2 = m
  /\ handles_valid st.1 (m_libBuilder st.2)
  /\ lib_view st.1 (m_libBuilder st.2)
     = [member_of a m (ImportDescriptor d); member_of a m NullDescriptor]
       ++ concat (call_views a d m <$> cs).
Proof.
  cbv zeta. induction cs as [|c cs IH] using rev_ind.
  - destruct (new_spec a d m h) as (_ & Ha & Hd & Hm & Hv & Hw).
    unfold run_calls. cbn [foldl fmap list_fmap concat].
    rewrite app_nil_r. done.
  - destruct IH as (Ha & Hd & Hm & Hv & Hw).
    rewrite run_calls_snoc.
    destruct (call_spec c _ Hv) as (_ & Ha' & Hd' & Hm' & Hv' & Hw').
    rewrite Ha', Hd', Hm', Hw', Ha, Hd, Hm, Hw.
    rewrite fmap_app, concat_app. cbn [fmap list_fmap concat].
    rewrite app_nil_r, <- app_assoc. done.
Qed.

(** X11.  The builder keeps no record of what has been called: after any
    sequence of add-import and [Build()] calls, in any order, the emitter has
    in hand the two descriptors and then what each call adds, in the order of
    the calls; an add-import after [Build()] is appended after the null thunk,
    and each further [Build()] adds a null thunk and fills the offsets
    again. *)
Theorem run_calls_archive (h : list CoffObject) (a : Arch)
    (szDllName szMemName : string) (cs : list Call) :
  let st := run_calls h a szDllName szMemName cs in
  lib_view st.1 (m_libBuilder st.2)
  = [member_of a szMemName (ImportDescriptor szDllName);
     member_of a szMemName NullDescriptor]
    ++ concat (call_views a szDllName szMemName <$> cs).
Proof. apply run_calls_inv. Qed.

Lemma push_member_owns n k what st :
  owns n k st -> owns n (S k) (push_member what st).
Proof.
  intros (Hlen & Hdisp & Hadded). unfold owns, Dispose, push_member in *.
  cbn [fst snd m_todispose m_libBuilder].
  rewrite length_app, seq_S, Hdisp, Hlen. cbn [length].
  split; [lia|]. split; [done|].
  unfold added_objects in *. rewrite omap_app, Hadded. done.
Qed.

Lemma call_push c st :
  call c st
  = let st' := push_member (section_of (m_dllName st.2) c) st in
    match c with
    | Add _ => st'
    | CallBuild => (st'.1, lib_call FillOffsets st'.2)
    end.
Proof.
  destruct st as [h b]. destruct c as [i|]; cbn [call section_of fst snd].
  - apply add_import_push.
  - apply Build_push.
Qed.

Lemma call_owns n k c st : owns n k st -> owns n (S k) (call c st).
Proof.
  intros Howns. apply (push_member_owns _ _ (section_of (m_dllName st.2) c))
    in Howns.
  rewrite call_push. cbv zeta. destruct c as [i|]; [done|].
  destruct Howns as (Hlen & Hdisp & Hadded).
  unfold owns, Dispose, added_objects in *.
  cbn [fst snd lib_call m_todispose m_libBuilder].
  rewrite omap_app, Hadded. cbn. by rewrite app_nil_r.
Qed.

Lemma new_owns a d m h :
  owns (length h) 2 (new_CImportLibraryBuilder a d m h).
Proof.
  rewrite new_push. do 2 apply push_member_owns.
  unfold owns, Dispose, added_objects. cbn. split; [lia|done].
Qed.

Lemma run_calls_owns h a d m cs :
  owns (length h) (2 + length cs) (run_calls h a d m cs).
Proof.
  induction cs as [|c cs IH] using rev_ind.
  - apply new_owns.
  - rewrite run_calls_snoc, length_app. cbn [length].
    replace (2 + (length cs + 1))%nat with (S (2 + length cs)) by lia.
    by apply call_owns.
Qed.

(** X12.  After any sequence of calls, [Dispose()] disposes of every object
    the builder has created, in the order of creation, each once, and of no
    other object: two for the constructor and one for each call.  They are the
    objects the emitter was handed. *)
Theorem Dispose_created_objects (h : list CoffObject) (a : Arch)
    (szDllName szMemName : string) (cs : list Call) :
  let st := run_calls h a szDllName szMemName cs in
  Dispose st.2 = seq (length h) (2 + length cs)
  /\ added_objects (m_libBuilder st.2) = Dispose st.2
  /\ NoDup (Dispose st.2)
  /\ length st.1 = (length h + (2 + length cs))%nat.
Proof.
  cbv zeta.
  destruct (run_calls_owns h a szDllName szMemName cs)
    as (Hlen & Hdisp & Hadded).
  rewrite Hadded, Hdisp. repeat split; try done. apply NoDup_seq.
Qed.

Lemma push_member_heap what st :
  (push_member what st).1 = st.1 ++ [object_of (m_arch st.2) what].
Proof. reflexivity. Qed.

Lemma call_heap_object c st :
  (call c st).1
  = st.1 ++ [object_of (m_arch st.2) (section_of (m_dllName st.2) c)].
Proof. rewrite call_push. cbv zeta. by destruct c. Qed.

(** X13.  The builder writes into an object once, right after it has created
    it, and never into another: after any sequence of calls the heap is the
    heap at construction, unchanged, followed by one object for each
    descriptor and one for each call, each holding the one section built for
    it. *)
Theorem run_calls_heap (h : list CoffObject) (a : Arch)
    (szDllName szMemName : string) (cs : list Call) :
  (run_calls h a szDllName szMemName cs).1
  = h ++ (object_of a
            <$> [ImportDescriptor szDllName; NullDescriptor]
                ++ (section_of szDllName <$> cs)).
Proof.
  induction cs as [|c cs IH] using rev_ind.
  - unfold run_calls. cbn [foldl]. rewrite new_push.
    rewrite !push_member_heap. cbn [fst snd push_member m_arch].
    by rewrite <- app_assoc.
  - rewrite run_calls_snoc, call_heap_object, IH.
    destruct (run_calls_inv h a szDllName szMemName cs) as (-> & -> & _).
    rewrite !fmap_app, <- !app_assoc. done.
Qed.

(** ** The objects of several builders *)

Lemma push_member_todispose what st :
  m_todispose (push_member what st).2 = m_todispose st.2 ++ [length st.1]
  /\ length (push_member what st).1 = S (length st.1).
Proof.
  unfold push_member. cbn [fst snd m_todispose].
  rewrite length_app. cbn [length]. split; [done|lia].
Qed.

Lemma call_todispose c st :
  m_todispose (call c st).2 = m_todispose st.2 ++ [length st.1]
  /\ length (call c st).1 = S (length st.1).
Proof.
  rewrite call_push. cbv zeta.
  destruct (push_member_todispose (section_of (m_dllName st.2) c) st)
    as [Htodo Hlen].
  by destruct c.
Qed.

Lemma new_todispose a d m h :
  m_todispose (new_CImportLibraryBuilder a d m h).2
  = [length h; S (length h)]
  /\ length (new_CImportLibraryBuilder a d m h).1 = S (S (length h)).
Proof.
  rewrite new_push.
  set (st0 := (h, _)).
  destruct (push_member_todispose (ImportDescriptor d) st0) as [Htodo1 Hlen1].
  destruct (push_member_todispose NullDescriptor
              (push_member (ImportDescriptor d) st0)) as [Htodo2 Hlen2].
  rewrite Htodo2, Hlen2, Htodo1, Hlen1. done.
Qed.

Lemma world_ok_step n0 w e : world_ok n0 w -> world_ok n0 (step w e).
Proof.
  intros (Hn0 & Hown & Hdisj).
  assert (Hbelow : forall id b o,
            instances w !! id = Some b -> o ∈ m_todispose b ->
            (n0 <= o < length (heap w))%nat).
  { intros id b o Hb Ho. destruct (Hown id b Hb) as [_ Hall].
    rewrite Forall_forall in Hall. by apply Hall. }
  destruct e as [id a szDllName szMemName|id c]; cbn [step].
  - destruct (new_todispose a szDllName szMemName (heap w)) as [Htodo Hlen].
    destruct (new_CImportLibraryBuilder a szDllName szMemName (heap w))
      as [h' b'].
    cbn [fst snd] in Htodo, Hlen. unfold world_ok. cbn [heap instances].
    split; [lia|]. split.
    + intros id' b Hb. destruct (decide (id = id')) as [->|Hne].
      * rewrite lookup_insert_eq in Hb. injection Hb as <-. rewrite Htodo.
        split.
        -- apply NoDup_cons. split; [|apply NoDup_singleton].
           intros Hin. apply list_elem_of_singleton in Hin. lia.
        -- repeat constructor; lia.
      * rewrite lookup_insert_ne in Hb by done.
        destruct (Hown id' b Hb) as [Hnodup Hall]. split; [done|].
        eapply Forall_impl; [exact Hall|]. intros o Ho. cbn in Ho |- *. lia.
    + intros id1 id2 b1 b2 o Hne Hb1 Hb2 Ho1 Ho2.
      assert (Hnew : forall x, x ∈ m_todispose b' ->
                (length (heap w) <= x)%nat).
      { intros x Hx. rewrite Htodo in Hx.
        apply elem_of_cons in Hx as [->|Hx]; [lia|].
        apply list_elem_of_singleton in Hx. lia. }
      destruct (decide (id = id1)) as [Heq1|Hne1],
               (decide (id = id2)) as [Heq2|Hne2];
        [congruence|subst id1|subst id2|].
      * rewrite lookup_insert_eq in Hb1. injection Hb1 as <-.
        rewrite lookup_insert_ne in Hb2 by done.
        pose proof (Hnew o Ho1). pose proof (Hbelow id2 b2 o Hb2 Ho2). lia.
      * rewrite lookup_insert_eq in Hb2. injection Hb2 as <-.
        rewrite lookup_insert_ne in Hb1 by done.
        pose proof (Hnew o Ho2). pose proof (Hbelow id1 b1 o Hb1 Ho1). lia.
      * rewrite lookup_insert_ne in Hb1, Hb2 by done.
        by apply (Hdisj id1 id2 b1 b2 o).
  - destruct (instances w !! id) as [b|] eqn:Hid;
      [|exact (conj Hn0 (conj Hown Hdisj))].
    destruct (call_todispose c (heap w, b)) as [Htodo Hlen].
    destruct (call c (heap w, b)) as [h' b'].
    cbn [fst snd] in Htodo, Hlen. unfold world_ok. cbn [heap instances].
    assert (Hnew : forall x, x ∈ m_todispose b' ->
              x ∈ m_todispose b \/ x = length (heap w)).
    { intros x Hx. rewrite Htodo in Hx. apply elem_of_app in Hx as [Hx|Hx].
      - by left.
      - right. by apply list_elem_of_singleton in Hx. }
    split; [lia|]. split.
    + intros id' b0 Hb. destruct (decide (id = id')) as [->|Hne].
      * rewrite lookup_insert_eq in Hb. injection Hb as <-. rewrite Htodo.
        destruct (Hown id' b Hid) as [Hnodup Hall]. split.
        -- apply NoDup_app. split; [done|]. split; [|apply NoDup_singleton].
           intros x Hx Hx'. apply list_elem_of_singleton in Hx'.
           pose proof (Hbelow id' b x Hid Hx). lia.
        -- apply Forall_app. split.
           ++ eapply Forall_impl; [exact Hall|].
              intros o Ho. cbn in Ho |- *. lia.
           ++ repeat constructor; lia.
      * rewrite lookup_insert_ne in Hb by done.
        destruct (Hown id' b0 Hb) as [Hnodup Hall]. split; [done|].
        eapply Forall_impl; [exact Hall|]. intros o Ho. cbn in Ho |- *. lia.
    + intros id1 id2 b1 b2 o Hne Hb1 Hb2 Ho1 Ho2.
      destruct (decide (id = id1)) as [Heq1|Hne1],
               (decide (id = id2)) as [Heq2|Hne2];
        [congruence|subst id1|subst id2|].
      * rewrite lookup_insert_eq in Hb1. injection Hb1 as <-.
        rewrite lookup_insert_ne in Hb2 by done.
        destruct (Hnew o Ho1) as [Hold| ->].
        -- by apply (Hdisj id id2 b b2 o).
        -- pose proof (Hbelow id2 b2 _ Hb2 Ho2). lia.
      * rewrite lookup_insert_eq in Hb2. injection Hb2 as <-.
        rewrite lookup_insert_ne in Hb1 by done.
        destruct (Hnew o Ho2) as [Hold| ->].
        -- by apply (Hdisj id1 id b1 b o).
        -- pose proof (Hbelow id1 b1 _ Hb1 Ho1). lia.
      * rewrite lookup_insert_ne in Hb1, Hb2 by done.
        by apply (Hdisj id1 id2 b1 b2 o).
Qed.

Lemma world_ok_run n0 es : forall w,
  world_ok n0 w -> world_ok n0 (run_world w es).
Proof.
  induction es as [|e es IH]; intros w Hok; [done|].
  cbn [run_world foldl]. fold (run_world (step w e) es).
  apply IH. by apply world_ok_step.
Qed.

Lemma world_ok_fresh h0 : world_ok (length h0) (fresh_world h0).
Proof.
  unfold world_ok, fresh_world. cbn [heap instances].
  split; [lia|]. split.
  - intros id b Hb. by rewrite lookup_empty in Hb.
  - intros id1 id2 b1 b2 o _ Hb. by rewrite lookup_empty in Hb.
Qed.

(** X14.  Whatever the interleaving of constructions and calls of several
    builder instances in one process, two instances never dispose of the same
    object, no instance disposes of an object twice, and none disposes of an
    object that was there before the first construction. *)
Theorem instances_own_their_objects (h0 : list CoffObject)
    (es : list Event) (id1 id2 : nat) :
  id1 <> id2 ->
  let w := run_world (fresh_world h0) es in
  Forall (fun o => o ∉ owned w id2) (owned w id1)
  /\ NoDup (owned w id1)
  /\ Forall (fun o => (length h0 <= o < length (heap w))%nat) (owned w id1).
Proof.
  intros Hne w.
  destruct (world_ok_run (length h0) es (fresh_world h0) (world_ok_fresh h0))
    as (_ & Hown & Hdisj).
  fold w in Hown, Hdisj. unfold owned, Dispose.
  destruct (instances w !! id1) as [b1|] eqn:Hb1; cbn [fmap option_fmap
    option_map default].
  - destruct (Hown id1 b1 Hb1) as [Hnodup Hall].
    split; [|done]. apply Forall_forall.
    destruct (instances w !! id2) as [b2|] eqn:Hb2; cbn [fmap option_fmap
      option_map default].
    + intros o Ho1 Ho2. by apply (Hdisj id1 id2 b1 b2 o).
    + intros o _ Ho. by apply elem_of_nil in Ho.
  - split; [|split]; constructor.
Qed.

Lemma instances_own_their_objects_witness :
  Forall (fun o => o ∉ owned (run_world (fresh_world []) example_events) 2)
    (owned (run_world (fresh_world []) example_events) 1)
  /\ NoDup (owned (run_world (fresh_world []) example_events) 1)
  /\ Forall (fun o =>
               (0 <= o
                < length (heap (run_world (fresh_world []) example_events)))%nat)
       (owned (run_world (fresh_world []) example_events) 1).
Proof.
  apply (instances_own_their_objects [] example_events 1%nat 2%nat). lia.
Defined.

(** ** What [main] of MakeImpLib reads and writes *)

Lemma imports_same_used_fields l1 l2 :
  Forall2 same_used_fields l1 l2 -> import_of <$> l1 = import_of <$> l2.
Proof.
  induction 1 as [|s1 s2 l1 l2 (Hname & Hthunk & Hpub & Hord) _ IH]; [done|].
  cbn [fmap list_fmap]. f_equal; [|apply IH].
  unfold import_of. rewrite <- Hname, <- Hthunk, <- Hpub.
  destruct (String.eqb_spec (name s1) "") as [Hempty|_]; cbn [negb]; [|done].
  by rewrite (Hord Hempty).
Qed.

(** X15.  [main] uses of its input the DLL name, whether [arch] is 64, and of
    each symbol [name], [thunk] and [pubname], and [ord] only when the name
    is empty: two inputs that agree on these end alike and write the same
    bytes, whatever the [ord] of their named symbols and their [cconv]. *)
Theorem main_reads_used_fields
    (lib_GetDataLength : list LibView -> Z)
    (lib_GetRawData : list LibView -> list ascii)
    (argc : Z) (opens writes : bool) (j1 j2 : Input) :
  dllname j1 = dllname j2 ->
  (arch j1 =? 64) = (arch j2 =? 64) ->
  Forall2 same_used_fields (symbols j1) (symbols j2) ->
  main lib_GetDataLength lib_GetRawData argc
       {| input_file := Some j1; output_opens := opens;
          output_writes := writes |}
  = main lib_GetDataLength lib_GetRawData argc
         {| input_file := Some j2; output_opens := opens;
            output_writes := writes |}.
Proof.
  intros Hdll Harch Hsymbols.
  apply imports_same_used_fields in Hsymbols.
  unfold main. cbn [input_file output_opens output_writes]. cbv zeta.
  by rewrite !foldl_add_symbol, Hdll, Harch, Hsymbols.
Qed.

Lemma main_reads_used_fields_witness :
  main example_GetDataLength example_GetRawData 3
       {| input_file := Some kernel32_stdcall; output_opens := true;
          output_writes := true |}
  = main example_GetDataLength example_GetRawData 3
         {| input_file := Some kernel32_ord99; output_opens := true;
            output_writes := true |}.
Proof.
  apply (main_reads_used_fields example_GetDataLength example_GetRawData 3
           true true kernel32_stdcall kernel32_ord99).
  - reflexivity.
  - reflexivity.
  - constructor.
    + split; [reflexivity|]. split; [reflexivity|]. split; [reflexivity|].
      discriminate.
    + constructor; [|constructor].
      split; [reflexivity|]. split; [reflexivity|]. split; reflexivity.
Defined.

Lemma take_store_zeros (raw : list ascii) (n : nat) :
  (length raw <= n)%nat ->
  take n (store (replicate n NUL) raw) = raw ++ replicate (n - length raw) NUL.
Proof.
  intros Hlen. unfold store. rewrite drop_replicate.
  apply take_ge. rewrite length_app, length_replicate. lia.
Qed.

(** X16.  When the emitter announces a length that is not negative and
    writes no more bytes than it has announced, the file [main] writes has
    the announced length: the bytes the emitter wrote, then zeros.  What the
    emitter has in hand then is the two descriptors, a thunk for each symbol
    of the input in order and the null thunk, all under the name of the
    DLL. *)
Theorem main_writes_announced_length
    (lib_GetDataLength : list LibView -> Z)
    (lib_GetRawData : list LibView -> list ascii) (j : Input) :
  let a := if arch j =? 64 then ArchX64 else ArchX86 in
  let d := dllname j in
  let view :=
    [member_of a d (ImportDescriptor d); member_of a d NullDescriptor]
      ++ ((fun s => member_of a d (thunk_of d (import_of s))) <$> symbols j)
      ++ [member_of a d (NullThunk d); FilledOffsets] in
  0 <= lib_GetDataLength view ->
  (length (lib_GetRawData view) <= Z.to_nat (lib_GetDataLength view))%nat ->
  main lib_GetDataLength lib_GetRawData 3 (files_ok j)
  = Library
      (lib_GetRawData view
         ++ replicate (Z.to_nat (lib_GetDataLength view)
                       - length (lib_GetRawData view)) NUL).
Proof.
  intros a d view _ Hroom.
  rewrite main_runs_builder. fold a d.
  unfold written_bytes, GetDataLength, GetRawData.
  pose proof (run_builder_view [] a d d (import_of <$> symbols j)) as Hview.
  cbv zeta in Hview. rewrite Hview, <- list_fmap_compose.
  change (_ ++ _ ++ _) with view.
  f_equal. by apply take_store_zeros.
Qed.

Lemma main_writes_announced_length_witness :
  main example_GetDataLength example_GetRawData 3 (files_ok kernel32_stdcall)
  = Library
      (example_GetRawData
         ([member_of ArchX86 "kernel32.dll" (ImportDescriptor "kernel32.dll");
           member_of ArchX86 "kernel32.dll" NullDescriptor]
            ++ ((fun s => member_of ArchX86 "kernel32.dll"
                            (thunk_of "kernel32.dll" (import_of s)))
                  <$> [ExitProcess_stdcall; Proc1_by_ordinal])
            ++ [member_of ArchX86 "kernel32.dll" (NullThunk "kernel32.dll");
                FilledOffsets])
         ++ []).
Proof.
  apply (main_writes_announced_length example_GetDataLength
           example_GetRawData kernel32_stdcall).
  - vm_compute. discriminate.
  - vm_compute. lia.
Defined.

(** ** [main] of the two dumpers *)


Lemma has_compact_argc argv :
  has_compact argv = true -> (3 <= length argv)%nat.
Proof.
  unfold has_compact. destruct argv as [|a0 [|a1 [|a2 argv]]]; try done.
  intros _. cbn [length]. lia.
Qed.


Lemma error_msgs_in_range (result : ERR_CODES) :
  result <> ERR_OK ->
  exists msg,
    error_msgs !! Z.to_nat (err_code result - 1) = Some msg.
Proof. destruct result; [done|by eexists..]. Qed.

Lemma dumper_main_cases tool extension parse_pe_comments parse_pe_compact
    argv files can_create junk :
  let run :=
    dumper_main parse_pe_comments tool extension parse_pe_compact argv files
      can_create junk in
  (created run = None /\ out_text run = [] /\ err_text run <> []
   /\ (exit_status run = 1 \/ exit_status run = 2))
  \/ (exists text,
        created run = Some (output_filename extension argv)
        /\ exit_status run = 0
        /\ out_text run = text ++ [LF] ++ lit "endlib" ++ [LF]
        /\ (err_text run = []
            \/ exists msg,
                 msg ∈ error_msgs
                 /\ err_text run = lit "Error: " ++ msg ++ [LF])).
Proof.
  cbv zeta. unfold dumper_main. cbv zeta.
  destruct (Z.of_nat (length argv) <? 2).
  { left. cbn [created out_text err_text exit_status].
    repeat split; [discriminate|by left]. }
  destruct (can_create (output_filename extension argv)); cbn [negb].
  2:{ left. cbn [created out_text err_text exit_status].
      repeat split; [discriminate|by right]. }
  right.
  destruct (if has_compact argv then _ else _) as [result text].
  exists text. cbn [created out_text err_text exit_status].
  repeat split.
  destruct result; [by left|..]; right;
    match goal with
    | |- context [err_code ?rc] =>
        destruct (error_msgs_in_range rc ltac:(discriminate)) as [msg Hmsg]
    end;
    exists msg; (split; [by eapply list_elem_of_lookup_2|by rewrite Hmsg]).
Qed.

(** X17.  A run of either dumper ends in one of two ways.  Either no output
    file is created, something is written to [std::cerr] and the exit status
    is 1 (too few arguments) or 2 (the output cannot be created).  Or the
    output file is created, its text ends with the [endlib] line, and the
    exit status is 0 whatever [parse_pe] has returned; what goes to
    [std::cerr] then is nothing or one entry of [error_msgs], so the index
    [result - 1] is never outside the table. *)
Theorem dumper_main_outcomes
    (parse_pe_comments : string -> option (list ascii) -> ERR_CODES * list ascii)
    (argv : list string) (files : string -> option (list ascii))
    (can_create : string -> bool) (junk : Indeterminate) :
  Forall (fun run =>
            (created run = None /\ out_text run = [] /\ err_text run <> []
             /\ (exit_status run = 1 \/ exit_status run = 2))
            \/ (exists name text,
                  created run = Some name
                  /\ exit_status run = 0
                  /\ out_text run = text ++ [LF] ++ lit "endlib" ++ [LF]
                  /\ (err_text run = []
                      \/ exists msg,
                           msg ∈ error_msgs
                           /\ err_text run = lit "Error: " ++ msg ++ [LF])))
         [dll2def_main parse_pe_comments argv files can_create junk;
          dumpsyms_main parse_pe_comments argv files can_create junk].
Proof.
  assert (H : forall tool extension parse_pe_compact,
    let run :=
      dumper_main parse_pe_comments tool extension parse_pe_compact argv
        files can_create junk in
    (created run = None /\ out_text run = [] /\ err_text run <> []
     /\ (exit_status run = 1 \/ exit_status run = 2))
    \/ (exists name text,
          created run = Some name
          /\ exit_status run = 0
          /\ out_text run = text ++ [LF] ++ lit "endlib" ++ [LF]
          /\ (err_text run = []
              \/ exists msg,
                   msg ∈ error_msgs
                   /\ err_text run = lit "Error: " ++ msg ++ [LF]))).
  { intros tool extension parse_pe_compact.
    destruct (dumper_main_cases tool extension parse_pe_comments
                parse_pe_compact argv files can_create junk)
      as [Hnone|(text & Hsome)]; [by left|].
    right. by exists (output_filename extension argv), text. }
  constructor; [apply H|]. constructor; [apply H|constructor].
Qed.



(** X19.  The output file is created, and so emptied, before the input is
    opened: a dumper that is given the name of its input as the name of its
    output reads an empty file, whatever the file held.  With [/COMPACT] the
    output is then the [endlib] line alone, the message is the one of
    [ERR_BAD_FORMAT], and the exit status is 0. *)
Theorem dumper_output_is_input
    (parse_pe_comments : string -> option (list ascii) -> ERR_CODES * list ascii)
    (argv : list string) (files : string -> option (list ascii))
    (can_create : string -> bool) (junk : Indeterminate) :
  has_compact argv = true ->
  nth 2 argv ""%string = nth 1 argv ""%string ->
  starts_with_slash (nth 1 argv ""%string) = false ->
  can_create (nth 1 argv ""%string) = true ->
  Forall (fun run =>
            run
            = {| exit_status := 0;
                 created := Some (nth 1 argv ""%string);
                 out_text := [LF] ++ lit "endlib" ++ [LF];
                 err_text :=
                   lit "Error: "
                     ++ (QUOTE :: lit ": Unreadable or invalid PE image"
                           ++ [LF])
                     ++ [LF] |})
         [dll2def_main parse_pe_comments argv files can_create junk;
          dumpsyms_main parse_pe_comments argv files can_create junk].
Proof.
  intros Hcompact Hsame Hslash Hcreate.
  pose proof (has_compact_argc argv Hcompact) as Hargc.
  assert (Hname : forall extension,
            output_filename extension argv = nth 1 argv ""%string).
  { intros extension. unfold output_filename. cbv zeta.
    rewrite Hsame, Hslash.
    destruct (Z.ltb_spec 2 (Z.of_nat (length argv))) as [_|]; [done|lia]. }
  assert (H : forall tool extension parse_pe_compact,
    parse_pe_compact (nth 1 argv ""%string) (Some []) junk
    = (ERR_BAD_FORMAT, []) ->
    dumper_main parse_pe_comments tool extension parse_pe_compact argv files
      can_create junk
    = {| exit_status := 0;
         created := Some (nth 1 argv ""%string);
         out_text := [LF] ++ lit "endlib" ++ [LF];
         err_text :=
           lit "Error: "
             ++ (QUOTE :: lit ": Unreadable or invalid PE image" ++ [LF])
             ++ [LF] |}).
  { intros tool extension parse_pe_compact Hshort. unfold dumper_main.
    cbv zeta.
    destruct (Z.ltb_spec (Z.of_nat (length argv)) 2) as [|_]; [lia|].
    rewrite Hname, Hcreate, Hcompact, String.eqb_refl. cbn [negb].
    rewrite Hshort. reflexivity. }
  assert (Hshort : Dll2def.parse_pe (nth 1 argv ""%string) (Some []) junk
                   = (ERR_BAD_FORMAT, []))
    by (apply parse_pe_short; cbn; lia).
  constructor; [by apply H|]. constructor; [|constructor].
  apply H. by rewrite parse_pe_same.
Qed.

Lemma dumper_output_is_input_witness :
  Forall (fun run =>
            run
            = {| exit_status := 0;
                 created := Some "test.dll"%string;
                 out_text := [LF] ++ lit "endlib" ++ [LF];
                 err_text :=
                   lit "Error: "
                     ++ (QUOTE :: lit ": Unreadable or invalid PE image"
                           ++ [LF])
                     ++ [LF] |})
         [dll2def_main (fun _ _ => (ERR_OK, []))
            ["dump"; "test.dll"; "test.dll"; "/COMPACT"]%string
            (fun _ => Some example_dll) (fun _ => true) example_junk;
          dumpsyms_main (fun _ _ => (ERR_OK, []))
            ["dump"; "test.dll"; "test.dll"; "/COMPACT"]%string
            (fun _ => Some example_dll) (fun _ => true) example_junk].
Proof.
  apply (dumper_output_is_input (fun _ _ => (ERR_OK, []))
           ["dump"; "test.dll"; "test.dll"; "/COMPACT"]%string
           (fun _ => Some example_dll) (fun _ => true) example_junk);
    reflexivity.
Defined.

(** ** The headers [parse_pe] tests before it looks for exports *)

Lemma bytes_at_app (data rest : list ascii) (off : Z) (k : nat) :
  (Z.to_nat off + k <= length data)%nat ->
  bytes_at (data ++ rest) off k = bytes_at data off k.
Proof.
  intros Hlen. unfold bytes_at.
  rewrite drop_app_le by lia.
  rewrite take_app_le by (rewrite length_drop; lia). done.
Qed.

Lemma bytes_at_take (l : list ascii) (n : nat) (off : Z) (k : nat) :
  (Z.to_nat off + k <= n)%nat ->
  bytes_at (take n l) off k = bytes_at l off k.
Proof.
  intros Hlen. unfold bytes_at.
  rewrite !take_drop_commute, take_take.
  by replace ((Z.to_nat off + k) `min` n)%nat with (Z.to_nat off + k)%nat
    by lia.
Qed.

Lemma read_dos_header (bytes : list ascii) :
  (0x40 <= length bytes)%nat ->
  ifstream_read 0x40 (ifstream_open bytes)
  = (take 0x40 bytes,
     {| is_bytes := bytes; is_pos := 0x40; is_fail := false;
        is_gcount := 0x40 |}).
Proof.
  intros Hlen. unfold ifstream_read, ifstream_open.
  cbn [is_fail is_bytes is_pos]. change (Z.to_nat 0) with 0%nat.
  change (Z.to_nat 64) with 64%nat. rewrite drop_0, length_take.
  replace (64 `min` length bytes)%nat with 64%nat by lia. reflexivity.
Qed.

Lemma dos_e_lfanew (bytes : list ascii) :
  (0x40 <= length bytes)%nat ->
  u32_at (store (replicate 1024 NUL) (take 0x40 bytes)) 0x3C
  = u32_at bytes 0x3C.
Proof.
  intros Hlen. unfold u32_at, store.
  rewrite bytes_at_app by (rewrite length_take; lia).
  by rewrite bytes_at_take by lia.
Qed.

Lemma read_coff_header (bytes : list ascii) :
  ifstream_read 0x1A
    (ifstream_seekg (u32_at bytes 0x3C)
       {| is_bytes := bytes; is_pos := 0x40; is_fail := false;
          is_gcount := 0x40 |})
  = (coff_header bytes,
     {| is_bytes := bytes;
        is_pos := u32_at bytes 0x3C + Z.of_nat (length (coff_header bytes));
        is_fail := Z.of_nat (length (coff_header bytes)) <? 0x1A;
        is_gcount := Z.of_nat (length (coff_header bytes)) |}).
Proof. reflexivity. Qed.

(** The fields of the COFF file header in [buf] after the read. *)
Lemma coff_fields (buf coff : list ascii) :
  length coff = 0x1A%nat ->
  u32_at (store buf coff) 0 = u32_at coff 0
  /\ u16_at (store buf coff) 4 = u16_at coff 4
  /\ u16_at (store buf coff) 0x14 = u16_at coff 0x14
  /\ u16_at (store buf coff) 0x18 = u16_at coff 0x18.
Proof.
  intros Hlen. unfold u32_at, u16_at, store.
  by rewrite !bytes_at_app by (rewrite Hlen; lia).
Qed.

Ltac pe_headers_start Hlen :=
  unfold Dll2def.pe_headers, mbind, PE_bind, pe_bind, mret, PE_ret, pe_ret,
    return_if, read_into, seekg_beg, seekg_cur, put;
  cbn [hFile hOut]; rewrite read_dos_header by exact Hlen;
  cbn [is_gcount negb Z.eqb Pos.eqb hFile hOut];
  rewrite dos_e_lfanew by exact Hlen;
  rewrite read_coff_header; cbn [is_gcount hFile hOut].

Lemma pe_headers_bad (bytes : list ascii) :
  (0x40 <= length bytes)%nat ->
  length (coff_header bytes) <> 0x1A%nat
  \/ u32_at (coff_header bytes) 0 <> 0x4550
  \/ (2 < u16_at (coff_header bytes) 0x14
      /\ u16_at (coff_header bytes) 0x18 <> 0x10B
      /\ u16_at (coff_header bytes) 0x18 <> 0x20B) ->
  exists s,
    Dll2def.pe_headers {| hFile := ifstream_open bytes; hOut := [] |}
    = Return ERR_BAD_FORMAT {| hFile := s; hOut := [] |}.
Proof.
  intros Hlen Hbad. pe_headers_start Hlen.
  destruct (decide (length (coff_header bytes) = 0x1A%nat)) as [Hcoff|Hcoff].
  - destruct (coff_fields (store (replicate 1024 NUL) (take 0x40 bytes))
                (coff_header bytes) Hcoff) as (-> & -> & -> & ->).
    rewrite Hcoff. cbn [Z.of_nat Pos.of_succ_nat Pos.succ Z.eqb Pos.eqb negb
      orb].
    destruct Hbad as [Hbad|[Hbad|(Hsize & H10B & H20B)]]; [done| |].
    + destruct (Z.eqb_spec (u32_at (coff_header bytes) 0) 17744); [done|].
      by eexists.
    + destruct (Z.eqb_spec (u32_at (coff_header bytes) 0) 17744);
        [|by eexists].
      cbn [negb].
      destruct (Z.ltb_spec 2 (u16_at (coff_header bytes) 20)); [|lia].
      destruct (Z.eqb_spec (u16_at (coff_header bytes) 24) 267); [done|].
      destruct (Z.eqb_spec (u16_at (coff_header bytes) 24) 523); [done|].
      by eexists.
  - destruct (Z.eqb_spec (Z.of_nat (length (coff_header bytes))) 26);
      [lia|].
    by eexists.
Qed.

Lemma pe_headers_no_export (bytes : list ascii) :
  (0x40 <= length bytes)%nat ->
  length (coff_header bytes) = 0x1A%nat ->
  u32_at (coff_header bytes) 0 = 0x4550 ->
  u16_at (coff_header bytes) 0x14 <= 2
  \/ (u16_at (coff_header bytes) 0x18 = 0x10B
      /\ u16_at (coff_header bytes) 0x14 < 0x68)
  \/ (u16_at (coff_header bytes) 0x18 = 0x20B
      /\ u16_at (coff_header bytes) 0x14 < 0x78) ->
  exists s,
    Dll2def.pe_headers {| hFile := ifstream_open bytes; hOut := [] |}
    = Return ERR_NO_EXPORT
        {| hFile := s;
           hOut := include_line (u16_at (coff_header bytes) 4 =? 0x8664) |}.
Proof.
  intros Hlen Hcoff Hsig Hsmall. pe_headers_start Hlen.
  destruct (coff_fields (store (replicate 1024 NUL) (take 0x40 bytes))
              (coff_header bytes) Hcoff) as (-> & -> & -> & ->).
  rewrite Hcoff, Hsig.
  cbn [Z.of_nat Pos.of_succ_nat Pos.succ Z.eqb Pos.eqb negb orb].
  destruct (Z.ltb_spec 2 (u16_at (coff_header bytes) 20)) as [Hsize|Hsize].
  - destruct Hsmall as [Hsmall|[[Hmagic Hsmall]|[Hmagic Hsmall]]]; [lia|..];
      rewrite Hmagic; cbn [Z.eqb Pos.eqb negb andb hFile hOut].
    + destruct (Z.ltb_spec (u16_at (coff_header bytes) 20) 104); [|lia].
      by eexists.
    + destruct (Z.ltb_spec (u16_at (coff_header bytes) 20) 120); [|lia].
      by eexists.
  - cbn [hFile hOut].
    destruct (Z.ltb_spec (u16_at (coff_header bytes) 20) 104); [|lia].
    by eexists.
Qed.

(** X20.  Of the headers both tools test three things before they write
    anything: that the 0x1A bytes at the offset found at 0x3C are all there,
    that they start with the signature [PE\0\0], and, when the optional
    header has more than two bytes, that its magic number is 0x10B or 0x20B.
    A file that fails one of them is answered with [ERR_BAD_FORMAT] and not a
    byte of output; the MSDOS signature is not among the tests. *)
Theorem parse_pe_rejected_header (filename : string) (bytes : list ascii)
    (junk : Indeterminate) :
  (0x40 <= length bytes)%nat ->
  length (coff_header bytes) <> 0x1A%nat
  \/ u32_at (coff_header bytes) 0 <> 0x4550
  \/ (2 < u16_at (coff_header bytes) 0x14
      /\ u16_at (coff_header bytes) 0x18 <> 0x10B
      /\ u16_at (coff_header bytes) 0x18 <> 0x20B) ->
  Dll2def.parse_pe filename (Some bytes) junk = (ERR_BAD_FORMAT, [])
  /\ Dumpsyms.parse_pe filename (Some bytes) junk = (ERR_BAD_FORMAT, []).
Proof.
  intros Hlen Hbad. rewrite parse_pe_same.
  destruct (pe_headers_bad bytes Hlen Hbad) as [s Hheaders].
  assert (H : Dll2def.parse_pe filename (Some bytes) junk
              = (ERR_BAD_FORMAT, [])).
  { unfold Dll2def.parse_pe.
    by rewrite (pe_bind_Return_eq _ _ _ _ _ Hheaders). }
  by split.
Qed.

Lemma parse_pe_rejected_header_witness :
  Dll2def.parse_pe "a.dll" (Some (pad_to 0x40 (lit "MZ"))) example_junk
  = (ERR_BAD_FORMAT, [])
  /\ Dumpsyms.parse_pe "a.dll" (Some (pad_to 0x40 (lit "MZ"))) example_junk
     = (ERR_BAD_FORMAT, []).
Proof.
  apply (parse_pe_rejected_header "a.dll" (pad_to 0x40 (lit "MZ"))
           example_junk).
  - vm_compute. lia.
  - right. left. vm_compute. discriminate.
Defined.

(** X21.  The [include] line is written as soon as the three tests of the
    headers have passed, and before the tools look for an export directory.
    A file with a good COFF file header whose optional header is too short to
    hold one (fewer than 0x68 bytes, or 0x78 for PE32+; an object file has
    none) is answered with [ERR_NO_EXPORT] and the [include] line alone, for
    [implib64.inc] when the machine of the COFF header is 0x8664 and for
    [implib.inc] otherwise, whatever the magic number of the optional header
    says. *)
Theorem parse_pe_header_without_exports (filename : string)
    (bytes : list ascii) (junk : Indeterminate) :
  (0x40 <= length bytes)%nat ->
  length (coff_header bytes) = 0x1A%nat ->
  u32_at (coff_header bytes) 0 = 0x4550 ->
  u16_at (coff_header bytes) 0x14 <= 2
  \/ (u16_at (coff_header bytes) 0x18 = 0x10B
      /\ u16_at (coff_header bytes) 0x14 < 0x68)
  \/ (u16_at (coff_header bytes) 0x18 = 0x20B
      /\ u16_at (coff_header bytes) 0x14 < 0x78) ->
  Dll2def.parse_pe filename (Some bytes) junk
  = (ERR_NO_EXPORT, include_line (u16_at (coff_header bytes) 4 =? 0x8664))
  /\ Dumpsyms.parse_pe filename (Some bytes) junk
     = (ERR_NO_EXPORT, include_line (u16_at (coff_header bytes) 4 =? 0x8664)).
Proof.
  intros Hlen Hcoff Hsig Hsmall. rewrite parse_pe_same.
  destruct (pe_headers_no_export bytes Hlen Hcoff Hsig Hsmall)
    as [s Hheaders].
  assert (H : Dll2def.parse_pe filename (Some bytes) junk
              = (ERR_NO_EXPORT,
                 include_line (u16_at (coff_header bytes) 4 =? 0x8664))).
  { unfold Dll2def.parse_pe.
    by rewrite (pe_bind_Return_eq _ _ _ _ _ Hheaders). }
  by split.
Qed.

Lemma parse_pe_header_without_exports_witness :
  Dll2def.parse_pe "a.obj" (Some example_object) example_junk
  = (ERR_NO_EXPORT, include_line true)
  /\ Dumpsyms.parse_pe "a.obj" (Some example_object) example_junk
     = (ERR_NO_EXPORT, include_line true).
Proof.
  apply (parse_pe_header_without_exports "a.obj" example_object example_junk).
  - vm_compute. lia.
  - reflexivity.
  - reflexivity.
  - left. vm_compute. discriminate.
Defined.
